(** * tg_parser: the ingestion-and-dedup pipeline of the Telegram content parser

    A shallow embedding of [src/filters.py], [src/db.py] and the parsing part
    of [src/main.py], followed by the properties of the specification that
    are settled on it.

    Conventions of the embedding.
    - A Python [str] is a [list ascii]; a character is read as the code point
      of the same number, so the texts covered are those over U+0000..U+00FF.
      The classes behind [\s], [\w] and [str.lower] are written out for that
      range.
    - [None] is [option]'s [None]; Python truthiness of an optional string is
      [truthy].
    - [hashlib.md5(..).hexdigest()], [str(msg.media)], the HTTP fetch, the
      HTML text extraction and the Telegram transport are the environment:
      the first two are section variables, the others are given to the
      functions as the outcome the environment produced. *)

From Stdlib Require Import List Ascii String ZArith NArith Bool Lia.
From stdpp Require Import gmap strings list.
Import ListNotations.
Open Scope list_scope.

(** ** Characters and strings *)

Abbreviation text := (list ascii).

Definition txt (s : string) : text := list_ascii_of_string s.

Definition code (c : ascii) : N := N_of_ascii c.

Definition in_range (lo hi : N) (c : ascii) : bool :=
  ((lo <=? code c) && (code c <=? hi))%N.

(** [str.isspace] and the class [\s] of a [str] pattern. *)
Definition isspace (c : ascii) : bool :=
  in_range 9 13 c || in_range 28 32 c || (code c =? 133)%N || (code c =? 160)%N.

(** [str.isalnum], by Unicode category, below U+0100. *)
Definition isalnum (c : ascii) : bool :=
  in_range 48 57 c || in_range 65 90 c || in_range 97 122 c
  || (code c =? 170)%N || in_range 178 179 c || (code c =? 181)%N
  || in_range 185 186 c || in_range 188 190 c
  || in_range 192 214 c || in_range 216 246 c || in_range 248 255 c.

(** The class [\w]: alphanumeric or underscore. *)
Definition isword (c : ascii) : bool := isalnum c || (code c =? 95)%N.

(** [str.lower] on one character. *)
Definition lower_char (c : ascii) : ascii :=
  if in_range 65 90 c || in_range 192 214 c || in_range 216 222 c
  then ascii_of_N (code c + 32) else c.

Definition lower (s : text) : text := map lower_char s.

(** Truthiness of an optional string: [None] and [""] are false. *)
Definition truthy (o : option text) : bool :=
  match o with
  | Some (_ :: _) => true
  | _ => false
  end.

Fixpoint starts_with (p s : text) : bool :=
  match p, s with
  | [], _ => true
  | _ :: _, [] => false
  | a :: p', b :: s' => if Ascii.eqb a b then starts_with p' s' else false
  end.

(** [p in s] for strings: [p] is a substring of [s]. *)
Fixpoint occurs (p s : text) : bool :=
  match s with
  | [] => starts_with p []
  | _ :: s' => starts_with p s || occurs p s'
  end.

(** A case-insensitive occurrence: [p.lower() in s.lower()]. *)
Definition occurs_ci (p s : text) : bool := occurs (lower p) (lower s).

(** [str.strip()] with no argument. *)
Fixpoint lstrip (s : text) : text :=
  match s with
  | c :: s' => if isspace c then lstrip s' else s
  | [] => []
  end.

Definition rstrip (s : text) : text := rev (lstrip (rev s)).

Definition strip (s : text) : text := rstrip (lstrip s).

(** ** The regular expressions of the program

    The fragment of [re] the sources use: literals and character classes,
    sequence, alternation (first alternative first), the greedy [+] of a
    character class, and group 1.  [re_match] is the backtracking matcher,
    in continuation-passing style: the continuation receives the rest of the
    subject and the text of group 1. *)

Inductive regex : Type :=
| Eps
| Chr (p : ascii -> bool)
| Seq (a b : regex)
| Alt (a b : regex)
| Plus (p : ascii -> bool)
| Group (a : regex).

Fixpoint plus_tail {X} (p : ascii -> bool) (s : text)
    (k : text -> option X) : option X :=
  match s with
  | c :: s' =>
      if p c then
        match plus_tail p s' k with
        | Some x => Some x
        | None => k s
        end
      else k s
  | [] => k []
  end.

Fixpoint re_match {X} (r : regex) (s : text) (g : option text)
    (k : text -> option text -> option X) : option X :=
  match r with
  | Eps => k s g
  | Chr p =>
      match s with
      | c :: s' => if p c then k s' g else None
      | [] => None
      end
  | Seq a b => re_match a s g (fun s1 g1 => re_match b s1 g1 k)
  | Alt a b =>
      match re_match a s g k with
      | Some x => Some x
      | None => re_match b s g k
      end
  | Plus p =>
      match s with
      | c :: s' => if p c then plus_tail p s' (fun s1 => k s1 g) else None
      | [] => None
      end
  | Group a =>
      re_match a s g
        (fun s1 _ => k s1 (Some (take (length s - length s1) s)))
  end.

(** A match anchored at the head of [s]: its length and group 1. *)
Definition match_here (r : regex) (s : text) : option (nat * option text) :=
  re_match r s None (fun s1 g => Some (length s - length s1, g)).

(** The replacement of [re.sub]: a constant string or the template [\1]. *)
Inductive repl : Type :=
| Const (t : text)
| Group1.

Definition expand (rp : repl) (g : option text) : text :=
  match rp with
  | Const t => t
  | Group1 => match g with Some x => x | None => [] end
  end.

(** [re.sub(r, rp, s)]: the leftmost matches, left to right, not
    overlapping.  [skip] counts the characters of the current match still to
    be dropped.  An empty match is replaced and the scan moves one character
    on (no pattern of the program matches both the empty string and a
    non-empty one at the same place). *)
Fixpoint sub_from (r : regex) (rp : repl) (skip : nat) (s : text) : text :=
  match s with
  | [] =>
      match skip, match_here r [] with
      | O, Some (_, g) => expand rp g
      | _, _ => []
      end
  | c :: s' =>
      match skip with
      | S n => sub_from r rp n s'
      | O =>
          match match_here r s with
          | Some (O, g) => expand rp g ++ c :: sub_from r rp 0 s'
          | Some (S n, g) => expand rp g ++ sub_from r rp n s'
          | None => c :: sub_from r rp 0 s'
          end
      end
  end.

Definition re_sub (r : regex) (rp : repl) (s : text) : text :=
  sub_from r rp 0 s.

(** A literal string as a pattern; with [ignorecase] two characters match
    when their lower-case forms are equal.  This is [re.escape(phrase)]
    compiled with or without [re.IGNORECASE]. *)
Definition lit_char (ignorecase : bool) (a : ascii) : ascii -> bool :=
  fun c => if ignorecase then Ascii.eqb (lower_char c) (lower_char a)
           else Ascii.eqb c a.

Fixpoint literal (ignorecase : bool) (p : text) : regex :=
  match p with
  | [] => Eps
  | a :: p' => Seq (Chr (lit_char ignorecase a)) (literal ignorecase p')
  end.

Definition not_space (c : ascii) : bool := negb (isspace c).

Definition not_char (a : ascii) : ascii -> bool := fun c => negb (Ascii.eqb c a).

(** ** src/filters.py *)

(** [http\S+|t\.me/\S+] *)
Definition re_links : regex :=
  Alt (Seq (literal false (txt "http")) (Plus not_space))
      (Seq (literal false (txt "t.me/")) (Plus not_space)).

(** [@\w+] *)
Definition re_mention : regex := Seq (literal false (txt "@")) (Plus isword).

(** [\s+] *)
Definition re_spaces : regex := Plus isspace.

Definition newline : ascii := ascii_of_N 10.

Definition clean_text (text0 : option text) (blacklist : list text)
    (signature : option text) : text :=
  match text0 with
  | Some (c :: t0) =>
      let text1 := re_sub re_links (Const []) (c :: t0) in
      let text2 := re_sub re_mention (Const []) text1 in
      let text3 :=
        fold_left (fun acc phrase => re_sub (literal true phrase) (Const []) acc)
                  blacklist text2 in
      let text4 := strip (re_sub re_spaces (Const (txt " ")) text3) in
      match signature with
      | Some (d :: sg) => text4 ++ newline :: newline :: d :: sg
      | _ => text4
      end
  | _ => []
  end.


(** ** src/main.py: parsing utilities *)

Definition contains_keywords (text0 : option text) (keywords : list text) : bool :=
  match text0, keywords with
  | Some (c :: t0), _ :: _ =>
      let text_lower := lower (c :: t0) in
      existsb (fun kw => occurs (lower kw) text_lower) keywords
  | _, _ => false
  end.

Definition dquote : ascii := "034"%char.

(** [\[([^\]]+)\]\([^\)]+\)] *)
Definition re_md_link : regex :=
  Seq (literal false (txt "["))
   (Seq (Group (Plus (not_char "]")))
    (Seq (literal false (txt "]("))
     (Seq (Plus (not_char ")")) (literal false (txt ")"))))).

(** [<a\s+href=Q[^Q]+Q>([^<]+)</a>], where Q stands for the double quote *)
Definition re_html_link : regex :=
  Seq (literal false (txt "<a"))
   (Seq (Plus isspace)
    (Seq (literal false (txt "href=" ++ [dquote]))
     (Seq (Plus (not_char dquote))
      (Seq (literal false (dquote :: txt ">"))
       (Seq (Group (Plus (not_char "<"))) (literal false (txt "</a>"))))))).

(** [https?://\S+] *)
Definition re_url : regex :=
  Seq (literal false (txt "http"))
   (Seq (Alt (Chr (lit_char false "s")) Eps)
    (Seq (literal false (txt "://")) (Plus not_space))).

Definition remove_hyperlinks (text0 : text) : text :=
  match text0 with
  | [] => text0
  | _ :: _ =>
      let text1 := re_sub re_md_link Group1 text0 in
      let text2 := re_sub re_html_link Group1 text1 in
      let text3 := re_sub re_url (Const []) text2 in
      strip text3
  end.

(** ** src/main.py: the configuration *)

(** A parsed JSON document ([json.load]); numbers are kept as integers. *)
#[local] Unset Elimination Schemes.
Inductive json : Type :=
| JNull
| JBool (b : bool)
| JNum (z : Z)
| JStr (s : text)
| JArr (l : list json)
| JObj (fields : list (text * json)).
#[local] Set Elimination Schemes.

(** What is found at [CONFIG_FILE] when it is opened for reading. *)
Inductive file : Type :=
| NoFile                 (* [open] raises FileNotFoundError *)
| NotJSON                (* [json.load] raises JSONDecodeError *)
| Parsed (data : json).  (* [json.load] returns [data] *)

Inductive exn : Type :=
| AttributeError
| TypeError
| KeyError
| OperationalError.

(** The result of a call that may raise.  [OutOfModel] marks the documents
    whose fields do not have the types the record [Config] gives them;
    nothing is stated about those. *)
Inductive outcome (A : Type) : Type :=
| Return (a : A)
| Raise (e : exn)
| OutOfModel.
Arguments Return {A} a.
Arguments Raise {A} e.
Arguments OutOfModel {A}.

Record Config : Type := mkConfig {
  channels : list text;        (* sources['channels'] *)
  sites : list text;           (* sources['sites'] *)
  keywords : list text;
  target_channel : option text;
  sent_hashes : gset text
}.

(** The fields set by [Config.__init__] before it calls [load]. *)
Definition default_config : Config :=
  {| channels := []; sites := []; keywords := []; target_channel := None;
     sent_hashes := ∅ |}.

(** [list.remove(x)]: the first occurrence only. *)
Fixpoint list_remove (x : text) (l : list text) : list text :=
  match l with
  | [] => []
  | y :: l' => if decide (x = y) then l' else y :: list_remove x l'
  end.

Definition clean_sources (c : Config) : Config :=
  if truthy (target_channel c) then
    match target_channel c with
    | Some t =>
        if bool_decide (t ∈ channels c)
        then {| channels := list_remove t (channels c); sites := sites c;
                keywords := keywords c; target_channel := target_channel c;
                sent_hashes := sent_hashes c |}
        else c
    | None => c
    end
  else c.

(** [dict.get]: a later duplicate of a key has replaced an earlier one. *)
Fixpoint obj_get (k : text) (fields : list (text * json)) : option json :=
  match fields with
  | [] => None
  | (k', v) :: rest =>
      match obj_get k rest with
      | Some v' => Some v'
      | None => if decide (k = k') then Some v else None
      end
  end.

Definition as_str (v : json) : option text :=
  match v with JStr s => Some s | _ => None end.

Definition as_str_list (v : json) : option (list text) :=
  match v with
  | JArr l => mapM as_str l
  | _ => None
  end.

Definition unhashable (v : json) : bool :=
  match v with JArr _ | JObj _ => true | _ => false end.

(** [set(v)] for the value found under [sent_hashes]. *)
Definition set_of_json (v : json) : outcome (gset text) :=
  match v with
  | JArr l =>
      if existsb unhashable l then Raise TypeError
      else match mapM as_str l with
           | Some hs => Return (list_to_set hs)
           | None => OutOfModel
           end
  | JStr s => Return (list_to_set (map (fun c => [c]) s))
  | JObj fields => Return (list_to_set (map fst fields))
  | JNull | JBool _ | JNum _ => Raise TypeError
  end.

(** The value found under [sources]: both lists when it has the expected
    shape, [None] for the key [channels] when the object lacks it. *)
Inductive sources_shape : Type :=
| Sources (chs sts : list text)
| NoChannelsKey
| OtherSources.

Definition sources_of_json (o : option json) : sources_shape :=
  match o with
  | None => Sources [] []
  | Some (JObj fields) =>
      match obj_get (txt "channels") fields with
      | None => NoChannelsKey
      | Some chs =>
          match as_str_list chs, obj_get (txt "sites") fields with
          | Some cl, Some sts =>
              match as_str_list sts with
              | Some sl => Sources cl sl
              | None => OtherSources
              end
          | _, _ => OtherSources
          end
      end
  | Some _ => OtherSources
  end.

Definition target_of_json (o : option json) : option (option text) :=
  match o with
  | None | Some JNull => Some None
  | Some (JStr s) => Some (Some s)
  | Some _ => None
  end.

Definition list_of_json (o : option json) : option (list text) :=
  match o with
  | None => Some []
  | Some v => as_str_list v
  end.

Definition load (self : Config) (f : file) : outcome Config :=
  match f with
  | NoFile | NotJSON => Return self
  | Parsed (JObj data) =>
      match set_of_json (default (JArr []) (obj_get (txt "sent_hashes") data)) with
      | Raise e => Raise e
      | OutOfModel => OutOfModel
      | Return hs =>
          match sources_of_json (obj_get (txt "sources") data),
                list_of_json (obj_get (txt "keywords") data),
                target_of_json (obj_get (txt "target_channel") data) with
          | Sources cl sl, Some kws, Some tgt =>
              Return (clean_sources
                        {| channels := cl; sites := sl; keywords := kws;
                           target_channel := tgt; sent_hashes := hs |})
          | NoChannelsKey, _, Some tgt =>
              if truthy tgt then Raise KeyError else OutOfModel
          | _, _, _ => OutOfModel
          end
      end
  | Parsed _ => Raise AttributeError
  end.

(** [Config()]: the defaults, then [load]. *)
Definition Config_init (f : file) : outcome Config := load default_config f.

Definition json_of_list (l : list text) : json := JArr (map JStr l).

(** The document written by [json.dump] in [save]. *)
Definition dump (c : Config) : json :=
  JObj [ (txt "sources",
           JObj [ (txt "channels", json_of_list (channels c));
                  (txt "sites", json_of_list (sites c)) ]);
         (txt "keywords", json_of_list (keywords c));
         (txt "target_channel",
           match target_channel c with Some t => JStr t | None => JNull end);
         (txt "sent_hashes", json_of_list (elements (sent_hashes c))) ].

(** [save]: the cleaned configuration and the file it leaves (the write is
    taken to succeed). *)
Definition save (self : Config) : Config * file :=
  let c := clean_sources self in (c, Parsed (dump c)).

(** ** src/main.py: the process state and the transport *)

(** [parsing_task]: the task made by [asyncio.create_task], and whether
    [cancel] has been called on it. *)
Inductive task : Type :=
| TaskPending
| TaskCancelled.

(** The module-level variables, and the file behind [CONFIG_FILE]. *)
Record state : Type := mkState {
  config : Config;
  config_file : file;
  parsing_active : bool;
  parsing_task : option task;
  awaiting_target_channel : bool;
  awaiting_source : bool
}.

Definition set_config (st : state) (c : Config) (f : file) : state :=
  mkState c f (parsing_active st) (parsing_task st)
          (awaiting_target_channel st) (awaiting_source st).

Definition set_awaiting (st : state) (tgt src : bool) : state :=
  mkState (config st) (config_file st) (parsing_active st) (parsing_task st)
          tgt src.

(** [config.save()] *)
Definition do_save (st : state) : state :=
  let '(c, f) := save (config st) in set_config st c f.

Definition add_hash (c : Config) (h : text) : Config :=
  {| channels := channels c; sites := sites c; keywords := keywords c;
     target_channel := target_channel c;
     sent_hashes := {[h]} ∪ sent_hashes c |}.

(** [config.sent_hashes.add(msg_hash); config.save()] *)
Definition record_sent (st : state) (h : text) : state :=
  do_save (set_config st (add_hash (config st) h) (config_file st)).

Inductive media : Type :=
| MessageMediaPhoto (photo : N)
| MessageMediaDocument (document : N)
| MessageMediaOther (kind : N).

(** A message yielded by [userbot.iter_messages].  The message class of the
    client library has the attributes [message], [text] and [media]; it has
    no attribute [caption]. *)
Record message : Type := mkMessage {
  msg_message : option text;
  msg_text : option text;
  msg_media : option media
}.

Inductive attachment : Type :=
| PhotoOf (photo : N)
| DocumentOf (document : N).

(** The calls on the publishing client. *)
Inductive call : Type :=
| send_message (entity : option text) (body : text)
| send_file (entity : option text) (att : attachment) (caption : option text)
| forward_messages (entity : option text) (msg : message).

(** How the transport answered a call. *)
Inductive send_outcome : Type :=
| Sent
| FloodWaitError (seconds : Z)
| SendFailed.

Inductive event : Type :=
| Publish (c : call)
| Sleep (seconds : Z)
| Persist
| LogInfo
| LogWarning
| LogError.

(** [not config.keywords or contains_keywords(text, config.keywords)], the
    test both scanners make before publishing. *)
Definition keyword_gate (kws : list text) (text0 : option text) : bool :=
  match kws with
  | [] => true
  | _ :: _ => contains_keywords text0 kws
  end.

(** [x[:n]] *)
Definition slice_to (n : nat) (s : text) : text := take n s.

(** The text sent for a site: [f"{snippet}..."], cut at 4000 characters. *)
Definition site_message (snippet : text) : text :=
  let message_text := snippet ++ txt "..." in
  if 4000 <? length message_text
  then slice_to 4000 message_text ++ txt "..."
  else message_text.

(** The outcome of [session.get(site)] and of the text extraction:
    [visible] is [' '.join(soup.stripped_strings)] once the script, style,
    nav and footer elements are removed. *)
Inductive fetch_result : Type :=
| FetchFailed
| Response (status : Z) (visible : text).

Section Pipeline.

(** [hashlib.md5(text.encode()).hexdigest()] *)
Variable md5_hexdigest : text -> text.
(** [str(m)] for a media object [m]. *)
Variable media_repr : media -> text.

Definition get_message_hash (t : text) : text := md5_hexdigest t.

(** [str(msg.media)] *)
Definition str_media (m : option media) : text :=
  match m with
  | None => txt "None"
  | Some x => media_repr x
  end.

(** The body of the loop of [parse_sites] for one site, from the answer to
    the request on: the new state and what was done. *)
Definition site_item (st : state) (r : fetch_result) (o : send_outcome)
    : state * list event :=
  match r with
  | FetchFailed => (st, [LogInfo; LogError])
  | Response status text0 =>
      if negb (status =? 200)%Z then (st, [LogInfo; LogWarning])
      else
        match text0 with
        | [] => (st, [LogInfo; LogWarning])
        | _ :: _ =>
            let snippet := slice_to 1000 text0 in
            let msg_hash := get_message_hash snippet in
            if bool_decide (msg_hash ∈ sent_hashes (config st)) then (st, [LogInfo])
            else if keyword_gate (keywords (config st)) (Some text0) then
              let message_text := site_message snippet in
              let c := send_message (target_channel (config st)) message_text in
              match o with
              | Sent => (record_sent st msg_hash, [LogInfo; Publish c; Persist; LogInfo])
              | FloodWaitError n => (st, [LogInfo; Publish c; LogError; Sleep n])
              | SendFailed => (st, [LogInfo; Publish c; LogError])
              end
            else (st, [LogInfo])
        end
  end.

(** [clean_content[:1024] if clean_content else None] *)
Definition caption_of (clean_content : text) : option text :=
  match clean_content with
  | [] => None
  | _ :: _ => Some (slice_to 1024 clean_content)
  end.

(** The call made for a message, by the kind of its media. *)
Definition primary_call (target : option text) (msg : message)
    (clean_content : text) : call :=
  match msg_media msg with
  | Some (MessageMediaPhoto p) =>
      send_file target (PhotoOf p) (caption_of clean_content)
  | Some (MessageMediaDocument d) =>
      send_file target (DocumentOf d) (caption_of clean_content)
  | Some (MessageMediaOther _) => forward_messages target msg
  | None => send_message target (slice_to 4000 clean_content)
  end.

(** [msg.text or msg.caption or ""].  When [msg.text] is truthy it is the
    value.  When it is falsy the second operand is evaluated, and reading
    [caption] on a message raises [AttributeError]; the third operand is
    never reached. *)
Definition text_or_caption (msg : message) : text + exn :=
  match msg_text msg with
  | Some (c :: s) => inl (c :: s)
  | Some [] | None => inr AttributeError
  end.

(** [clean_content] once its hyperlinks are removed.  On a message for which
    [text_or_caption] raises the program has no such value; the empty string
    stands in. *)
Definition content_of (msg : message) : text :=
  match text_or_caption msg with
  | inl raw => remove_hyperlinks raw
  | inr _ => []
  end.

(** [get_message_hash(clean_content + str(msg.media))] *)
Definition fingerprint (msg : message) : text :=
  get_message_hash (content_of msg ++ str_media (msg_media msg)).

(** The plain-text send tried after a failure that is not a flood wait. *)
Definition fallback (st : state) (clean_content : text) (o2 : send_outcome)
    : list event :=
  match clean_content with
  | [] => []
  | _ :: _ =>
      Publish (send_message (target_channel (config st))
                            (slice_to 4000 clean_content))
      :: match o2 with
         | Sent => []
         | FloodWaitError _ | SendFailed => [LogError]
         end
  end.

(** How the body of the loop over the messages ends: control goes on to the
    next message, or an exception leaves the loop for the handlers of the
    channel. *)
Inductive item_end : Type :=
| NextMessage
| Raised (e : exn).

(** The body of the loop over the messages of one channel, after the test of
    [parsing_active]: [o1] answers the first call, [o2] the fallback.  The
    exceptions of the calls are caught inside the body; the one of
    [text_or_caption] is not. *)
Definition channel_body (st : state) (msg : message) (o1 o2 : send_outcome)
    : state * list event * item_end :=
  if negb (truthy (msg_message msg)) && negb (bool_decide (is_Some (msg_media msg)))
  then (st, [], NextMessage)
  else
    match text_or_caption msg with
    | inr e => (st, [], Raised e)
    | inl raw =>
        let clean_content := remove_hyperlinks raw in
        let msg_hash :=
          get_message_hash (clean_content ++ str_media (msg_media msg)) in
        if bool_decide (msg_hash ∈ sent_hashes (config st))
        then (st, [], NextMessage)
        else if keyword_gate (keywords (config st)) (Some clean_content) then
          let c := primary_call (target_channel (config st)) msg clean_content in
          match o1 with
          | Sent =>
              (record_sent st msg_hash, [Publish c; Persist; LogInfo], NextMessage)
          | FloodWaitError n => (st, [Publish c; LogError; Sleep n], NextMessage)
          | SendFailed =>
              (st, Publish c :: LogError :: fallback st clean_content o2,
               NextMessage)
          end
        else (st, [], NextMessage)
    end.

(** The state and the events of the body. *)
Definition channel_item (st : state) (msg : message) (o1 o2 : send_outcome)
    : state * list event :=
  fst (channel_body st msg o1 o2).

(** The messages of one channel with the answers of the transport, and how
    the iteration ended. *)
Inductive feed_end : Type :=
| EndOfFeed
| ChannelPrivateError
| ChannelInvalidError
| OtherFailure.

Definition feed : Type := list (message * send_outcome * send_outcome) * feed_end.

(** How the loop over the messages of a channel ends: the iterator is
    exhausted (or raises, see [feed_end]), [parse_channels] returns because
    [parsing_active] is false, or the body raised. *)
Inductive scan_end : Type :=
| Exhausted
| Stopped
| BodyRaised.

(** The loop over the messages of a channel.  A message whose body raises
    ends the loop: the messages after it are not scanned. *)
Fixpoint scan_messages (st : state)
    (items : list (message * send_outcome * send_outcome))
    : state * list event * scan_end :=
  match items with
  | [] => (st, [], Exhausted)
  | (msg, o1, o2) :: rest =>
      if negb (parsing_active st) then (st, [LogInfo], Stopped)
      else
        match channel_body st msg o1 o2 with
        | (st1, ev1, Raised _) => (st1, ev1, BodyRaised)
        | (st1, ev1, NextMessage) =>
            let '(st2, ev2, e) := scan_messages st1 rest in
            (st2, ev1 ++ ev2, e)
        end
  end.

Definition end_events (e : feed_end) : list event :=
  match e with
  | EndOfFeed => []
  | ChannelPrivateError | ChannelInvalidError | OtherFailure => [LogError]
  end.

(** The loop over [config.sources["channels"]].  The list is read by index,
    as a Python iterator does: [save] may shorten it while it is walked.  An
    exception of the body is caught by [except Exception] and logged, and
    the loop goes on with the next channel. *)
Fixpoint channels_from (fuel i : nat) (env : text -> feed) (st : state)
    : state * list event :=
  match fuel with
  | O => (st, [])
  | S fuel' =>
      match channels (config st) !! i with
      | None => (st, [])
      | Some channel =>
          let '(items, e) := env channel in
          let '(st1, ev1, how) := scan_messages st items in
          match how with
          | Stopped => (st1, LogInfo :: ev1)
          | BodyRaised =>
              let '(st2, ev2) := channels_from fuel' (S i) env st1 in
              (st2, LogInfo :: ev1 ++ [LogError] ++ ev2)
          | Exhausted =>
              let '(st2, ev2) := channels_from fuel' (S i) env st1 in
              (st2, LogInfo :: ev1 ++ end_events e ++ ev2)
          end
      end
  end.

Definition parse_channels (env : text -> feed) (st : state) : state * list event :=
  if negb (truthy (target_channel (config st))) then (st, [LogWarning])
  else channels_from (length (channels (config st))) 0 env st.



(** ** src/main.py: the handlers that change the state

    The handlers that only send messages ([cmd_start], [show_status],
    [test_send_handler], [remove_source_handler], [set_keywords_handler])
    leave the state as it is and are not listed. *)

(** What [start_parsing_handler] and [stop_parsing_handler] answer. *)
Inductive answer : Type :=
| AnswerNoTarget        (* alert: set the target channel first *)
| AnswerAlreadyRunning  (* alert: parsing is already running *)
| AnswerStarted         (* parsing started, then the status *)
| AnswerNotActive       (* alert: parsing is not active *)
| AnswerStopped.        (* parsing stopped, then the status *)

Definition start_parsing_handler (st : state) : state * answer :=
  if negb (truthy (target_channel (config st))) then (st, AnswerNoTarget)
  else if parsing_active st then (st, AnswerAlreadyRunning)
  else (mkState (config st) (config_file st) true (Some TaskPending)
                (awaiting_target_channel st) (awaiting_source st),
        AnswerStarted).

Definition stop_parsing_handler (st : state) : state * answer :=
  if negb (parsing_active st) then (st, AnswerNotActive)
  else (mkState (config st) (config_file st) false
                (match parsing_task st with
                 | Some _ => Some TaskCancelled
                 | None => None
                 end)
                (awaiting_target_channel st) (awaiting_source st),
        AnswerStopped).

(** The first statement of [parsing_loop], run when the task starts. *)
Definition parsing_loop_enter (st : state) : state :=
  mkState (config st) (config_file st) true (parsing_task st)
          (awaiting_target_channel st) (awaiting_source st).

Definition set_target_handler (st : state) : state :=
  set_awaiting st true (awaiting_source st).

Definition add_source_handler (st : state) : state :=
  set_awaiting st (awaiting_target_channel st) true.

Definition list_sources_handler (st : state) : state :=
  set_config st (clean_sources (config st)) (config_file st).

(** [s.split(sep)] for a one-character separator. *)
Fixpoint split_char (sep : ascii) (s : text) : list text :=
  match s with
  | [] => [[]]
  | c :: s' =>
      let r := split_char sep s' in
      if Ascii.eqb c sep then [] :: r
      else match r with
           | h :: t => (c :: h) :: t
           | [] => [[c]]
           end
  end.

Definition with_target (c : Config) (t : option text) : Config :=
  {| channels := channels c; sites := sites c; keywords := keywords c;
     target_channel := t; sent_hashes := sent_hashes c |}.

Definition with_channels (c : Config) (l : list text) : Config :=
  {| channels := l; sites := sites c; keywords := keywords c;
     target_channel := target_channel c; sent_hashes := sent_hashes c |}.

Definition with_sites (c : Config) (l : list text) : Config :=
  {| channels := channels c; sites := l; keywords := keywords c;
     target_channel := target_channel c; sent_hashes := sent_hashes c |}.

Definition with_keywords (c : Config) (l : list text) : Config :=
  {| channels := channels c; sites := sites c; keywords := l;
     target_channel := target_channel c; sent_hashes := sent_hashes c |}.

Definition update_config (st : state) (c : Config) : state :=
  set_config st c (config_file st).

(** The text of an incoming message: the label of the menu button, which is
    outside the character range of [text], or any text of that range. *)
Inductive incoming : Type :=
| MenuLabel
| Plain (t : text).

(** [handle_text]; [entity_ok] tells whether [userbot.get_entity] returned an
    entity. *)
Definition handle_text (st : state) (m : incoming) (entity_ok : bool) : state :=
  match m with
  | MenuLabel => set_awaiting st false false
  | Plain t =>
      if awaiting_target_channel st then
        let channel := strip t in
        if negb (starts_with (txt "@") channel) then st
        else if entity_ok then
          set_awaiting
            (do_save (update_config st (with_target (config st) (Some channel))))
            false (awaiting_source st)
        else st
      else if awaiting_source st then
        let source := strip t in
        if starts_with (txt "http://") source || starts_with (txt "https://") source then
          if bool_decide (source ∈ sites (config st)) then st
          else
            set_awaiting
              (do_save (update_config st
                          (with_sites (config st) (sites (config st) ++ [source]))))
              (awaiting_target_channel st) false
        else if starts_with (txt "@") source || starts_with (txt "t.me/") source then
          let source :=
            if starts_with (txt "t.me/") source
            then txt "@" ++ List.last (split_char "/" source) []
            else source in
          if bool_decide (Some source = target_channel (config st)) then st
          else if bool_decide (source ∈ channels (config st)) then st
          else
            set_awaiting
              (if entity_ok then
                 do_save (update_config st
                            (with_channels (config st)
                                           (channels (config st) ++ [source])))
               else st)
              (awaiting_target_channel st) false
        else set_awaiting st (awaiting_target_channel st) false
      else if occurs (txt "keywords") (lower t) then
        if bool_decide (strip t = txt "-") then
          do_save (update_config st (with_keywords (config st) []))
        else
          let kws :=
            filter (fun kw => kw <> []) (map strip (split_char "," t)) in
          do_save (update_config st (with_keywords (config st) kws))
      else st
  end.

(** [confirm_remove_handler], given the digest carried by the button. *)
Definition confirm_remove_handler (st : state) (source_hash : text) : state :=
  let hit := fun source => bool_decide (md5_hexdigest source = source_hash) in
  match List.find hit (channels (config st)) with
  | Some source =>
      list_sources_handler
        (do_save (update_config st
                    (with_channels (config st)
                                   (list_remove source (channels (config st))))))
  | None =>
      match List.find hit (sites (config st)) with
      | Some source =>
          list_sources_handler
            (do_save (update_config st
                        (with_sites (config st)
                                    (list_remove source (sites (config st))))))
      | None => st
      end
  end.

(** One step of the running program: a handler, the start of the loop task,
    or the scan of one item.  The scan steps are allowed in every state,
    which includes all the interleavings of the scanners and the handlers. *)
Inductive step : state -> state -> Prop :=
| step_start st : step st (fst (start_parsing_handler st))
| step_stop st : step st (fst (stop_parsing_handler st))
| step_loop_enter st :
    parsing_task st = Some TaskPending -> step st (parsing_loop_enter st)
| step_set_target st : step st (set_target_handler st)
| step_add_source st : step st (add_source_handler st)
| step_list_sources st : step st (list_sources_handler st)
| step_text st m ok : step st (handle_text st m ok)
| step_confirm_remove st h : step st (confirm_remove_handler st h)
| step_site st r o : step st (fst (site_item st r o))
| step_channel st msg o1 o2 : step st (fst (channel_item st msg o1 o2)).

(** The state after the module is loaded: [config = Config()], no loop. *)
Definition initial (f : file) (c : Config) : state :=
  mkState c f false None false false.

Inductive reachable : state -> Prop :=
| reach_init f c : Config_init f = Return c -> reachable (initial f c)
| reach_step st st' : reachable st -> step st st' -> reachable st'.

End Pipeline.

(** The calls made on the publishing client among the events of a scan. *)
Definition calls (ev : list event) : list call :=
  flat_map (fun e => match e with Publish c => [c] | _ => [] end) ev.

(** Whether [config.save()] was run among the events of a scan. *)
Definition persisted (ev : list event) : bool :=
  existsb (fun e => match e with Persist => true | _ => false end) ev.

(** ** src/db.py *)

(** The tables made by [init_db]; a table is the list of its rows in rowid
    order, without the [id] column, which no query reads. *)
Record tables : Type := mkTables {
  donors : list text;
  blacklist : list text;
  config_rows : list (text * text)
}.

(** The database file: [None] while [init_db] has not made the tables. *)
Definition database : Type := option tables.

Definition init_db (d : database) : database :=
  match d with
  | None => Some (mkTables [] [] [])
  | Some t => Some t
  end.

(** [INSERT OR IGNORE] into a table with a UNIQUE column. *)
Definition insert_or_ignore (x : text) (rows : list text) : list text :=
  if bool_decide (x ∈ rows) then rows else rows ++ [x].

Definition add_blacklist (phrase : text) (d : database) : database * outcome unit :=
  match d with
  | None => (None, Raise OperationalError)
  | Some t =>
      (Some (mkTables (donors t) (insert_or_ignore phrase (blacklist t))
                      (config_rows t)),
       Return tt)
  end.

Definition get_blacklist (d : database) : outcome (list text) :=
  match d with
  | None => Raise OperationalError
  | Some t => Return (map lower (blacklist t))
  end.

(** ** The specification's wording, for comparison *)

(** The sanitizer property as the specification words it: the output has no
    case-insensitive occurrence of a blacklist phrase and no [http://] or
    [https://]. *)
Definition sanitized (out : text) (phrases : list text) : Prop :=
  (forall p, p ∈ phrases -> occurs_ci p out = false)
  /\ occurs (txt "http://") out = false
  /\ occurs (txt "https://") out = false.

(** The outgoing site message as the specification words it: cut at 4000
    characters, with the ellipsis appended exactly when it was cut. *)
Definition site_message_spec (snippet : text) : text :=
  if 4000 <? length snippet
  then slice_to 4000 snippet ++ txt "..."
  else snippet.

(** The keyword filter as the specification words it: true for an empty
    keyword set, otherwise a case-insensitive substring test. *)
Definition matches_spec (text0 : option text) (kws : list text) : bool :=
  match kws with
  | [] => true
  | _ :: _ =>
      match text0 with
      | Some (c :: t0) => existsb (fun kw => occurs_ci kw (c :: t0)) kws
      | _ => false
      end
  end.

(** ** Auxiliary definitions for the proofs *)

(** What is left of [s] after its longest prefix of characters in [p]. *)
Fixpoint drop_while (p : ascii -> bool) (s : text) : text :=
  match s with
  | c :: s' => if p c then drop_while p s' else s
  | [] => []
  end.

(** A scan described by the rest it leaves after a match at the head. *)
Definition scans (r : regex) (m : text -> option text) : Prop :=
  (forall s, fst <$> match_here r s = (fun rest => length s - length rest) <$> m s)
  /\ (forall s rest, m s = Some rest -> exists pre, pre <> [] /\ s = pre ++ rest).

(** The rest after a match of [q+] at the head of [s], when there is one. *)
Definition plus_rest (q : ascii -> bool) (s : text) : option text :=
  match s with
  | c :: s' => if q c then Some (drop_while q s') else None
  | [] => None
  end.

(** The same for the literal [p] followed by [q+]. *)
Definition lit_plus_rest (p : text) (q : ascii -> bool) (s : text) : option text :=
  if starts_with p s then plus_rest q (drop (length p) s) else None.

(** The rest after a match of [re_links] at the head of [s]. *)
Definition links_rest (s : text) : option text :=
  match lit_plus_rest (txt "http") not_space s with
  | Some rest => Some rest
  | None => lit_plus_rest (txt "t.me/") not_space s
  end.

(** No [http] followed by a character that is not white space. *)
Definition no_link (s : text) : Prop :=
  forall a b x, s = a ++ txt "http" ++ x :: b -> isspace x = true.

(** The rest after a match of [re_mention] at the head of [s]. *)
Definition mention_rest (s : text) : option text :=
  lit_plus_rest (txt "@") isword s.

(** [d] is not [c], whatever the case. *)
Definition differs_ci (c d : ascii) : Prop := lower_char d <> lower_char c.

(** The loop of [clean_text] over the blacklist. *)
Definition remove_phrases (blacklist : list text) (s : text) : text :=
  fold_left (fun acc phrase => re_sub (literal true phrase) (Const []) acc)
            blacklist s.

(** [config.target_channel] is set: neither [None] nor empty. *)
Definition destination_set (st : state) : bool :=
  truthy (target_channel (config st)).

(** While the loop is on, or its task is waiting to run, a destination is
    set. *)
Definition running_has_destination (st : state) : Prop :=
  parsing_active st = true \/ parsing_task st = Some TaskPending ->
  destination_set st = true.

(** The second state has the loop flags of the first, and its destination
    unless it has set one. *)
Definition same_loop_view (st st' : state) : Prop :=
  parsing_active st' = parsing_active st
  /\ parsing_task st' = parsing_task st
  /\ (target_channel (config st') = target_channel (config st)
      \/ destination_set st' = true).

(** A configuration document that lists the destination twice among the
    channels. *)
Definition duplicated_source_document : json :=
  JObj [ (txt "sources",
           JObj [ (txt "channels", JArr [JStr (txt "@a"); JStr (txt "@a")]);
                  (txt "sites", JArr []) ]);
         (txt "target_channel", JStr (txt "@a")) ].

(** The rows of the blacklist table; none while the table is not made. *)
Definition stored_blacklist (d : database) : list text :=
  match d with
  | None => []
  | Some t => blacklist t
  end.

(** Concrete inputs for the instances: a digest, a media description, a
    message and a state. *)
Definition demo_hash : text -> text := fun s => s.
Definition demo_repr : media -> text := fun _ => txt "media".

Definition demo_message : message :=
  mkMessage (Some (txt "hello")) (Some (txt "hello")) None.

Definition demo_state (hashes : gset text) : state :=
  mkState (mkConfig [txt "@src"] [txt "http://site"] [] (Some (txt "@dst")) hashes)
          NoFile true (Some TaskPending) false false.

(** ** Definitions for the further properties *)

(** [add_donor]: [INSERT OR IGNORE] into the donors table. *)
Definition add_donor (username : text) (d : database) : database * outcome unit :=
  match d with
  | None => (None, Raise OperationalError)
  | Some t =>
      (Some (mkTables (insert_or_ignore username (donors t)) (blacklist t)
                      (config_rows t)),
       Return tt)
  end.

Definition get_donors (d : database) : outcome (list text) :=
  match d with
  | None => Raise OperationalError
  | Some t => Return (donors t)
  end.

(** [INSERT OR REPLACE] into a table whose key column is the primary key:
    the row that has the key, if any, is deleted and the new row is added. *)
Definition insert_or_replace (k v : text) (rows : list (text * text))
    : list (text * text) :=
  filter (fun row => fst row <> k) rows ++ [(k, v)].

(** [set_config] of [src/db.py] (the name [set_config] is taken by the state
    record). *)
Definition db_set_config (key value : text) (d : database)
    : database * outcome unit :=
  match d with
  | None => (None, Raise OperationalError)
  | Some t =>
      (Some (mkTables (donors t) (blacklist t)
                      (insert_or_replace key value (config_rows t))),
       Return tt)
  end.

(** [SELECT value FROM config WHERE key=?], then [fetchone]. *)
Definition select_value (key : text) (rows : list (text * text)) : option text :=
  match List.find (fun row => bool_decide (fst row = key)) rows with
  | Some row => Some (snd row)
  | None => None
  end.

(** [get_config] of [src/db.py]. *)
Definition db_get_config (key : text) (d : database) : outcome (option text) :=
  match d with
  | None => Raise OperationalError
  | Some t => Return (select_value key (config_rows t))
  end.

(** The rows of the key-value table; none while the table is not made. *)
Definition stored_config (d : database) : list (text * text) :=
  match d with
  | None => []
  | Some t => config_rows t
  end.

(** The rows of the donors table; none while the table is not made. *)
Definition stored_donors (d : database) : list text :=
  match d with
  | None => []
  | Some t => donors t
  end.

(** The source lists have no duplicate and the destination, when set, is not
    among the channels. *)
Definition sources_tidy (c : Config) : Prop :=
  NoDup (channels c) /\ NoDup (sites c)
  /\ (forall t, target_channel c = Some t -> t <> [] -> t ∉ channels c).

(** Every channel is an [@name] and every site an [http://] or [https://]
    address. *)
Definition sources_shaped (c : Config) : Prop :=
  Forall (fun s => starts_with (txt "@") s = true) (channels c)
  /\ Forall (fun s => starts_with (txt "http://") s
                      || starts_with (txt "https://") s = true) (sites c).

(** The entity a call is addressed to. *)
Definition call_entity (c : call) : option text :=
  match c with
  | send_message e _ => e
  | send_file e _ _ => e
  | forward_messages e _ => e
  end.


(** What a scan leaves alone: the second state has the keywords, the
    destination, the sites and the flags of the first, no new channel, and
    at least its ledger. *)
Definition scan_frame (st st' : state) : Prop :=
  keywords (config st') = keywords (config st)
  /\ target_channel (config st') = target_channel (config st)
  /\ sites (config st') = sites (config st)
  /\ (forall x, x ∈ channels (config st') -> x ∈ channels (config st))
  /\ sent_hashes (config st) ⊆ sent_hashes (config st')
  /\ parsing_active st' = parsing_active st
  /\ parsing_task st' = parsing_task st
  /\ awaiting_target_channel st' = awaiting_target_channel st
  /\ awaiting_source st' = awaiting_source st.

(** One item scan of a pass: the body of the loop of [parse_sites] for one
    site, or the body of the loop of [parse_channels] for one message. *)
Inductive scan_step (md5_hexdigest : text -> text) (media_repr : media -> text)
    : state -> state -> Prop :=
| scan_site st r o :
    scan_step md5_hexdigest media_repr st (fst (site_item md5_hexdigest st r o))
| scan_channel st msg o1 o2 :
    scan_step md5_hexdigest media_repr st
              (fst (channel_item md5_hexdigest media_repr st msg o1 o2)).

(** Every call among the events goes to [tgt]. *)
Definition all_to (tgt : option text) (ev : list event) : Prop :=
  Forall (fun c => call_entity c = tgt) (calls ev).

(** In [s], the string [w] is never followed by a character of [bad]. *)
Definition free_of (w : text) (bad : ascii -> bool) (s : text) : Prop :=
  forall a b x, s = a ++ w ++ x :: b -> bad x = false.

(** The rest after a match of [re_url] at the head of [s]. *)
Definition url_rest (s : text) : option text :=
  if starts_with (txt "http") s then
    match
      match drop 4 s with
      | c :: s1 =>
          if lit_char false "s" c
          then lit_plus_rest (txt "://") not_space s1
          else None
      | [] => None
      end
    with
    | Some rest => Some rest
    | None => lit_plus_rest (txt "://") not_space (drop 4 s)
    end
  else None.

(** Every white-space character of [s] is a single space followed by a
    character that is not white space, or by nothing. *)
Fixpoint single_spaced (s : text) : bool :=
  match s with
  | [] => true
  | c :: s' =>
      (if isspace c
       then Ascii.eqb c " "
            && match s' with d :: _ => negb (isspace d) | [] => true end
       else true)
      && single_spaced s'
  end.

(** A photo sent without text. *)
Definition demo_photo : message :=
  mkMessage (Some []) (Some []) (Some (MessageMediaPhoto 7)).

(** A state with the defaults, idle, and the given dialogue flags. *)
Definition idle_state (awaiting_tgt awaiting_src : bool) : state :=
  mkState default_config NoFile false None awaiting_tgt awaiting_src.

(** * Properties *)

(** ** Strings *)

Lemma starts_with_spec (p s : text) :
  starts_with p s = true <-> exists b, s = p ++ b.
Proof.
  revert s. induction p as [|a p IH]; intros s; simpl.
  - split; [intros _; exists s; reflexivity | reflexivity].
  - destruct s as [|c s].
    + split; [discriminate | intros [b Hb]; discriminate].
    + destruct (Ascii.eqb_spec a c) as [->|Hne].
      * rewrite IH. split; intros [b Hb]; exists b; [subst; reflexivity|].
        injection Hb as Hb. exact Hb.
      * split; [discriminate | intros [b Hb]; injection Hb as Hh _; congruence].
Qed.

(** [occurs p s] says that [p] is a substring of [s]. *)
Lemma occurs_spec (p s : text) :
  occurs p s = true <-> exists a b, s = a ++ p ++ b.
Proof.
  induction s as [|c s IH]; simpl.
  - rewrite starts_with_spec. split.
    + intros [b Hb]. exists [], b. exact Hb.
    + intros [a [b Hb]]. destruct a; [exists b; exact Hb | discriminate].
  - rewrite orb_true_iff, starts_with_spec, IH. split.
    + intros [[b Hb] | [a [b Hb]]].
      * exists [], b. exact Hb.
      * exists (c :: a), b. simpl. rewrite Hb. reflexivity.
    + intros [a [b Hb]]. destruct a as [|c' a].
      * left. exists b. exact Hb.
      * right. injection Hb as _ Hb. exists a, b. exact Hb.
Qed.

Lemma lower_char_idem (c : ascii) : lower_char (lower_char c) = lower_char c.
Proof. destruct c as [[] [] [] [] [] [] [] []]; reflexivity. Qed.

Lemma lower_idem (s : text) : lower (lower s) = lower s.
Proof.
  unfold lower. rewrite map_map. apply map_ext. intros c. apply lower_char_idem.
Qed.

Example clean_text_ex1 :
  clean_text (Some (txt "see http://a.b/c  now @bob  Buy  SPAM here"))
             [txt "spam"] (Some (txt "sig"))
  = txt "see now Buy here" ++ [newline; newline] ++ txt "sig".
Proof. vm_compute. reflexivity. Qed.

(** ** The keyword filter *)

Lemma existsb_occurs (kws : list text) (t : text) :
  existsb (fun kw => occurs (lower kw) (lower t)) kws = true
  <-> exists kw, kw ∈ kws /\ exists a b, lower t = a ++ lower kw ++ b.
Proof.
  rewrite existsb_exists. split.
  - intros [kw [Hin Hocc]]. exists kw. split.
    + apply list_elem_of_In. exact Hin.
    + apply occurs_spec. exact Hocc.
  - intros [kw [Hin Hocc]]. exists kw. split.
    + apply list_elem_of_In. exact Hin.
    + apply occurs_spec. exact Hocc.
Qed.

(** C2, as stated, fails: with no keyword the function answers false. *)
Lemma contains_keywords_empty_set_counterexample :
  contains_keywords (Some (txt "Bitcoin rises today")) [] <> true
  /\ contains_keywords (Some (txt "Bitcoin rises today")) []
     <> matches_spec (Some (txt "Bitcoin rises today")) [].
Proof. split; vm_compute; discriminate. Qed.

(** C2, amended: [contains_keywords] is false when the keyword list is empty
    and when the text is empty or absent; otherwise it is true exactly when
    some keyword occurs in the text, both lower-cased.  The pass-through for
    an empty keyword list is the callers' test [keyword_gate], which is true
    for every text when there is no keyword and is [contains_keywords]
    otherwise. *)
Theorem contains_keywords_amended (text0 : option text) (kws : list text) :
  contains_keywords text0 [] = false
  /\ (truthy text0 = false -> contains_keywords text0 kws = false)
  /\ (forall t, text0 = Some t -> t <> [] -> kws <> [] ->
        (contains_keywords text0 kws = true
         <-> exists kw, kw ∈ kws /\ exists a b, lower t = a ++ lower kw ++ b))
  /\ keyword_gate [] text0 = true
  /\ (kws <> [] -> keyword_gate kws text0 = contains_keywords text0 kws).
Proof.
  repeat split.
  - destruct text0 as [[|c t]|]; reflexivity.
  - destruct text0 as [[|c t]|]; simpl; try discriminate; reflexivity.
  - subst text0. destruct t as [|c t]; [congruence|].
    destruct kws as [|k kws]; [congruence|].
    intros H. apply existsb_occurs. exact H.
  - subst text0. destruct t as [|c t]; [congruence|].
    destruct kws as [|k kws]; [congruence|].
    intros H. apply existsb_occurs. exact H.
  - destruct kws; [congruence | reflexivity].
Qed.

Lemma contains_keywords_amended_witness :
  contains_keywords (Some (txt "Bitcoin rises today")) [txt "bitcoin"] = true
  /\ contains_keywords None [txt "bitcoin"] = false
  /\ keyword_gate [txt "bitcoin"] (Some (txt "Bitcoin rises today")) = true.
Proof.
  pose proof (contains_keywords_amended (Some (txt "Bitcoin rises today"))
                [txt "bitcoin"]) as (_ & _ & Hiff & _ & Hgate).
  pose proof (contains_keywords_amended None [txt "bitcoin"]) as (_ & Habs & _).
  split; [|split].
  - apply (Hiff (txt "Bitcoin rises today") eq_refl); [discriminate..|].
    exists (txt "bitcoin"). split; [apply list_elem_of_here|].
    exists [], (txt " rises today"). reflexivity.
  - apply Habs. reflexivity.
  - rewrite Hgate; [|discriminate].
    apply (Hiff (txt "Bitcoin rises today") eq_refl); [discriminate..|].
    exists (txt "bitcoin"). split; [apply list_elem_of_here|].
    exists [], (txt " rises today"). reflexivity.
Defined.

(** ** The scanners and the ledger *)

Section PipelineFacts.

Variable md5_hexdigest : text -> text.
Variable media_repr : media -> text.

#[local] Abbreviation site_item := (site_item md5_hexdigest).
#[local] Abbreviation channel_item := (channel_item md5_hexdigest media_repr).
#[local] Abbreviation fingerprint := (fingerprint md5_hexdigest media_repr).

(** What a site scan does, by the answer of the transport: it publishes only
    when the text is there, new and accepted by the keyword test, and it
    records only when the call succeeded. *)
Lemma site_item_cases (st : state) (status : Z) (text0 : text) (o : send_outcome) :
  let c := send_message (target_channel (config st))
                        (site_message (slice_to 1000 text0)) in
  (fst (site_item st (Response status text0) o) = st
   /\ calls (snd (site_item st (Response status text0) o)) = []
   /\ persisted (snd (site_item st (Response status text0) o)) = false
   /\ (status <> 200%Z \/ text0 = []
       \/ (get_message_hash md5_hexdigest (slice_to 1000 text0) ∈ sent_hashes (config st))
       \/ keyword_gate (keywords (config st)) (Some text0) = false))
  \/ (status = 200%Z /\ text0 <> []
      /\ (get_message_hash md5_hexdigest (slice_to 1000 text0) ∉ sent_hashes (config st))
      /\ keyword_gate (keywords (config st)) (Some text0) = true
      /\ match o with
         | Sent =>
             site_item st (Response status text0) o
             = (record_sent st (get_message_hash md5_hexdigest (slice_to 1000 text0)),
                [LogInfo; Publish c; Persist; LogInfo])
         | FloodWaitError n =>
             site_item st (Response status text0) o
             = (st, [LogInfo; Publish c; LogError; Sleep n])
         | SendFailed =>
             site_item st (Response status text0) o
             = (st, [LogInfo; Publish c; LogError])
         end).
Proof.
  intros c. unfold site_item. fold site_item.
  destruct (Z.eqb_spec status 200) as [Hs|Hs]; simpl.
  2:{ left. repeat split; auto. }
  destruct text0 as [|a t0].
  { left. repeat split; auto. }
  case_bool_decide as Hin.
  { left. repeat split; auto. }
  destruct (keyword_gate (keywords (config st)) (Some (a :: t0))) eqn:Hg.
  2:{ left. repeat split; auto. }
  right. repeat split; auto; try discriminate.
  destruct o; reflexivity.
Qed.

Lemma truthy_text_or_caption (msg : message) :
  truthy (msg_text msg) = true ->
  exists raw, text_or_caption msg = inl raw
              /\ content_of msg = remove_hyperlinks raw.
Proof.
  unfold content_of, text_or_caption.
  destruct (msg_text msg) as [[|c s]|]; try discriminate.
  intros _. eexists. split; reflexivity.
Qed.

Lemma falsy_text_or_caption (msg : message) :
  truthy (msg_text msg) = false ->
  text_or_caption msg = inr AttributeError /\ content_of msg = [].
Proof.
  unfold content_of, text_or_caption.
  destruct (msg_text msg) as [[|c s]|]; try discriminate; auto.
Qed.

Lemma content_truthy (msg : message) :
  content_of msg <> [] -> truthy (msg_text msg) = true.
Proof.
  intros H. destruct (truthy (msg_text msg)) eqn:E; [reflexivity|].
  destruct (falsy_text_or_caption msg E) as [_ Hc]. contradiction.
Qed.

(** The same for a channel message, which is scanned only when it has a
    body or a media and its text is truthy. *)
Lemma channel_item_cases (st : state) (msg : message) (o1 o2 : send_outcome) :
  let c := primary_call (target_channel (config st)) msg (content_of msg) in
  (channel_item st msg o1 o2 = (st, [])
   /\ ((truthy (msg_message msg) = false /\ msg_media msg = None)
       \/ truthy (msg_text msg) = false
       \/ (fingerprint msg ∈ sent_hashes (config st))
       \/ keyword_gate (keywords (config st)) (Some (content_of msg)) = false))
  \/ ((truthy (msg_message msg) = true \/ msg_media msg <> None)
      /\ truthy (msg_text msg) = true
      /\ (fingerprint msg ∉ sent_hashes (config st))
      /\ keyword_gate (keywords (config st)) (Some (content_of msg)) = true
      /\ match o1 with
         | Sent =>
             channel_item st msg o1 o2
             = (record_sent st (fingerprint msg), [Publish c; Persist; LogInfo])
         | FloodWaitError n =>
             channel_item st msg o1 o2 = (st, [Publish c; LogError; Sleep n])
         | SendFailed =>
             channel_item st msg o1 o2
             = (st, Publish c :: LogError :: fallback st (content_of msg) o2)
         end).
Proof.
  intros c. subst c. unfold channel_item, channel_body.
  destruct (negb (truthy (msg_message msg))
            && negb (bool_decide (is_Some (msg_media msg)))) eqn:Hskip.
  { left. split; [reflexivity|]. left.
    apply andb_true_iff in Hskip as [H1 H2].
    apply negb_true_iff in H1. apply negb_true_iff in H2.
    apply bool_decide_eq_false in H2. split; [exact H1|].
    destruct (msg_media msg); [exfalso; apply H2; eauto | reflexivity]. }
  assert (Hbody : truthy (msg_message msg) = true \/ msg_media msg <> None).
  { apply andb_false_iff in Hskip as [H | H]; apply negb_false_iff in H.
    - left. exact H.
    - right. apply bool_decide_eq_true in H. destruct H as [m ->]. discriminate. }
  destruct (truthy (msg_text msg)) eqn:Ht.
  2:{ destruct (falsy_text_or_caption msg Ht) as [-> _].
      left. split; [reflexivity | right; left; reflexivity]. }
  destruct (truthy_text_or_caption msg Ht) as (raw & -> & Hc).
  unfold fingerprint. rewrite Hc. cbv zeta.
  destruct (bool_decide (get_message_hash md5_hexdigest
                           (remove_hyperlinks raw ++ str_media media_repr (msg_media msg))
                         ∈ sent_hashes (config st))) eqn:Hin.
  { left. split; [reflexivity | right; right; left].
    apply bool_decide_eq_true in Hin. exact Hin. }
  apply bool_decide_eq_false in Hin.
  destruct (keyword_gate (keywords (config st)) (Some (remove_hyperlinks raw))) eqn:Hg.
  2:{ left. split; [reflexivity | right; right; right; reflexivity]. }
  right. repeat split; auto.
  destruct o1; reflexivity.
Qed.

(** The body raises exactly on a message that is not skipped and whose text
    is falsy. *)
Lemma channel_body_end (st : state) (msg : message) (o1 o2 : send_outcome) :
  snd (channel_body md5_hexdigest media_repr st msg o1 o2) = Raised AttributeError
  <-> (truthy (msg_message msg) = true \/ msg_media msg <> None)
      /\ truthy (msg_text msg) = false.
Proof.
  unfold channel_body.
  destruct (negb (truthy (msg_message msg))
            && negb (bool_decide (is_Some (msg_media msg)))) eqn:Hskip.
  { apply andb_true_iff in Hskip as [H1 H2].
    apply negb_true_iff in H1. apply negb_true_iff in H2.
    apply bool_decide_eq_false in H2. simpl. split; [discriminate|].
    intros [[H | H] _]; [congruence|]. exfalso.
    destruct (msg_media msg); [apply H2; eauto | congruence]. }
  assert (Hbody : truthy (msg_message msg) = true \/ msg_media msg <> None).
  { apply andb_false_iff in Hskip as [H | H]; apply negb_false_iff in H.
    - left. exact H.
    - right. apply bool_decide_eq_true in H. destruct H as [m ->]. discriminate. }
  destruct (truthy (msg_text msg)) eqn:Ht.
  - destruct (truthy_text_or_caption msg Ht) as (raw & -> & _).
    split; [|intros [_ ?]; discriminate].
    repeat case_match; discriminate.
  - destruct (falsy_text_or_caption msg Ht) as [-> _]. simpl. tauto.
Qed.

Lemma calls_fallback (st : state) (content : text) (o2 : send_outcome) :
  calls (fallback st content o2)
  = match content with
    | [] => []
    | _ :: _ => [send_message (target_channel (config st)) (slice_to 4000 content)]
    end.
Proof. destruct content; [reflexivity|]. destruct o2; reflexivity. Qed.

Lemma persisted_fallback (st : state) (content : text) (o2 : send_outcome) :
  persisted (fallback st content o2) = false.
Proof. destruct content; [reflexivity|]. destruct o2; reflexivity. Qed.

Lemma config_do_save (st : state) :
  config (do_save st) = clean_sources (config st).
Proof. reflexivity. Qed.

Lemma sent_hashes_clean_sources (c : Config) :
  sent_hashes (clean_sources c) = sent_hashes c.
Proof.
  unfold clean_sources. destruct (truthy (target_channel c)); [|reflexivity].
  destruct (target_channel c); [|reflexivity].
  case_bool_decide; reflexivity.
Qed.

Lemma sent_hashes_record_sent (st : state) (h : text) :
  sent_hashes (config (record_sent st h)) = {[h]} ∪ sent_hashes (config st).
Proof.
  unfold record_sent. rewrite config_do_save, sent_hashes_clean_sources.
  reflexivity.
Qed.

(** C4: an item whose fingerprint is already in [sent_hashes] when it is
    scanned causes no call on the publishing client ([send_message],
    [send_file], [forward_messages]), no [save], and leaves the whole state,
    ledger and configuration included, as it was; for a site and for a
    channel message. *)
Theorem already_sent_item_is_skipped (st : state) (status : Z) (text0 : text)
    (o : send_outcome) (msg : message) (o1 o2 : send_outcome) :
  (get_message_hash md5_hexdigest (slice_to 1000 text0) ∈ sent_hashes (config st) ->
     fst (site_item st (Response status text0) o) = st
     /\ calls (snd (site_item st (Response status text0) o)) = []
     /\ persisted (snd (site_item st (Response status text0) o)) = false)
  /\ (fingerprint msg ∈ sent_hashes (config st) ->
     fst (channel_item st msg o1 o2) = st
     /\ calls (snd (channel_item st msg o1 o2)) = []
     /\ persisted (snd (channel_item st msg o1 o2)) = false).
Proof.
  split; intros Hin.
  - destruct (site_item_cases st status text0 o) as [(H1 & H2 & H3 & _) | H].
    + auto.
    + destruct H as (_ & _ & Hnin & _). contradiction.
  - destruct (channel_item_cases st msg o1 o2) as [[H _] | H].
    + rewrite H. auto.
    + destruct H as (_ & _ & Hnin & _). contradiction.
Qed.

(** C3: when the publish call raises [FloodWaitError], the scan leaves the
    state as it was: the fingerprint is not added to [sent_hashes] and
    [save] is not run; it sleeps for the seconds given.  For an item that is
    eligible (a site answering 200 with a text, a channel message with a
    body or a media and a truthy text; the fingerprint new and the keyword
    test passed) the call is made, a later scan of the same item in the
    state left by the flood wait makes the same call again whatever the
    transport answers then, and when the call succeeds the fingerprint is
    recorded and saved, after the call.  For every item, the fingerprint
    enters [sent_hashes] only when the call succeeded. *)
Theorem flood_wait_records_nothing (st : state) (status : Z) (text0 : text)
    (msg : message) (n : Z) (o o1 o2 o2' : send_outcome) :
  let hs := get_message_hash md5_hexdigest (slice_to 1000 text0) in
  let r := site_item st (Response status text0) (FloodWaitError n) in
  let q := channel_item st msg (FloodWaitError n) o2 in
  let cs := send_message (target_channel (config st))
                         (site_message (slice_to 1000 text0)) in
  let cc := primary_call (target_channel (config st)) msg (content_of msg) in
  (status = 200%Z -> text0 <> [] ->
   hs ∉ sent_hashes (config st) ->
   keyword_gate (keywords (config st)) (Some text0) = true ->
     r = (st, [LogInfo; Publish cs; LogError; Sleep n])
     /\ calls (snd (site_item (fst r) (Response status text0) o)) = [cs]
     /\ site_item st (Response status text0) Sent
        = (record_sent st hs, [LogInfo; Publish cs; Persist; LogInfo])
     /\ (hs ∈ sent_hashes (config (record_sent st hs))))
  /\ (truthy (msg_message msg) = true \/ msg_media msg <> None ->
      truthy (msg_text msg) = true ->
      fingerprint msg ∉ sent_hashes (config st) ->
      keyword_gate (keywords (config st)) (Some (content_of msg)) = true ->
        q = (st, [Publish cc; LogError; Sleep n])
        /\ (exists more,
              calls (snd (channel_item (fst q) msg o1 o2')) = cc :: more)
        /\ channel_item st msg Sent o2
           = (record_sent st (fingerprint msg), [Publish cc; Persist; LogInfo])
        /\ (fingerprint msg
            ∈ sent_hashes (config (record_sent st (fingerprint msg)))))
  /\ (fst r = st /\ persisted (snd r) = false)
  /\ (fst q = st /\ persisted (snd q) = false)
  /\ (sent_hashes (config (fst (site_item st (Response status text0) o)))
        <> sent_hashes (config st) ->
      o = Sent
      /\ snd (site_item st (Response status text0) o)
         = [LogInfo; Publish cs; Persist; LogInfo])
  /\ (sent_hashes (config (fst (channel_item st msg o1 o2)))
        <> sent_hashes (config st) ->
      o1 = Sent
      /\ snd (channel_item st msg o1 o2) = [Publish cc; Persist; LogInfo]).
Proof.
  intros hs r q cs cc. repeat apply conj.
  - intros Hs Ht Hnin Hg. subst r.
    assert (Hcase : forall o',
      match o' with
      | Sent =>
          site_item st (Response status text0) o'
          = (record_sent st hs, [LogInfo; Publish cs; Persist; LogInfo])
      | FloodWaitError k =>
          site_item st (Response status text0) o'
          = (st, [LogInfo; Publish cs; LogError; Sleep k])
      | SendFailed =>
          site_item st (Response status text0) o'
          = (st, [LogInfo; Publish cs; LogError])
      end).
    { intros o'. destruct (site_item_cases st status text0 o')
        as [(_ & _ & _ & Hc) | (_ & _ & _ & _ & H)]; [|exact H].
      destruct Hc as [Hc | [Hc | [Hc | Hc]]]; [contradiction.. | congruence]. }
    pose proof (Hcase (FloodWaitError n)) as Hflood. cbv beta iota in Hflood.
    repeat apply conj.
    + exact Hflood.
    + rewrite Hflood. cbn [fst]. pose proof (Hcase o) as Ho.
      destruct o; rewrite Ho; reflexivity.
    + exact (Hcase Sent).
    + rewrite sent_hashes_record_sent.
      apply elem_of_union_l, elem_of_singleton. reflexivity.
  - intros Hbody Htext Hnin Hg. subst q.
    assert (Hcase : forall a b,
      match a with
      | Sent =>
          channel_item st msg a b
          = (record_sent st (fingerprint msg), [Publish cc; Persist; LogInfo])
      | FloodWaitError k =>
          channel_item st msg a b = (st, [Publish cc; LogError; Sleep k])
      | SendFailed =>
          channel_item st msg a b
          = (st, Publish cc :: LogError :: fallback st (content_of msg) b)
      end).
    { intros a b. destruct (channel_item_cases st msg a b)
        as [[_ Hc] | (_ & _ & _ & _ & H)]; [|exact H].
      destruct Hc as [[Hm1 Hm2] | [Hc | [Hc | Hc]]];
        [|congruence | contradiction | congruence].
      destruct Hbody; congruence. }
    pose proof (Hcase (FloodWaitError n) o2) as Hflood. cbv beta iota in Hflood.
    repeat apply conj.
    + exact Hflood.
    + rewrite Hflood. cbn [fst]. pose proof (Hcase o1 o2') as Ho.
      destruct o1; rewrite Ho; eexists; reflexivity.
    + exact (Hcase Sent o2).
    + rewrite sent_hashes_record_sent.
      apply elem_of_union_l, elem_of_singleton. reflexivity.
  - subst r. destruct (site_item_cases st status text0 (FloodWaitError n))
      as [(H & _) | (_ & _ & _ & _ & H)]; [exact H | rewrite H; reflexivity].
  - subst r. destruct (site_item_cases st status text0 (FloodWaitError n))
      as [(_ & _ & H & _) | (_ & _ & _ & _ & H)]; [exact H | rewrite H; reflexivity].
  - subst q. destruct (channel_item_cases st msg (FloodWaitError n) o2)
      as [[H _] | (_ & _ & _ & _ & H)]; rewrite H; reflexivity.
  - subst q. destruct (channel_item_cases st msg (FloodWaitError n) o2)
      as [[H _] | (_ & _ & _ & _ & H)]; rewrite H; reflexivity.
  - intros Hne.
    destruct (site_item_cases st status text0 o)
      as [(H & _) | (_ & _ & _ & _ & H)].
    + rewrite H in Hne. contradiction.
    + destruct o; rewrite H in *; simpl in *; try contradiction.
      split; reflexivity.
  - intros Hne.
    destruct (channel_item_cases st msg o1 o2)
      as [[H _] | (_ & _ & _ & _ & H)].
    + rewrite H in Hne. contradiction.
    + destruct o1; rewrite H in *; simpl in *; try contradiction.
      split; reflexivity.
Qed.

(** C9: when the first call for a channel message fails with an error that
    is not a flood wait, the scan leaves the state as it was, whatever the
    fallback [send_message] answers: nothing is added to [sent_hashes] and
    [save] is not run.  The same scan can be repeated any number of times
    with the same outcome, so a message delivered by the fallback alone is
    sent again by every later scan of it.  The two calls are made for a
    message that has a body or a media, a new fingerprint, passes the keyword
    test, and whose text is not empty once its links are removed (a message
    whose text is falsy raises before any call). *)
Theorem fallback_delivery_is_not_recorded (st : state) (msg : message)
    (o2 : send_outcome) :
  let q := channel_item st msg SendFailed o2 in
  fst q = st
  /\ persisted (snd q) = false
  /\ (forall k, Nat.iter k (fun s => fst (channel_item s msg SendFailed o2)) st = st)
  /\ channel_item (fst q) msg SendFailed o2 = q
  /\ (fingerprint msg ∉ sent_hashes (config st) ->
      keyword_gate (keywords (config st)) (Some (content_of msg)) = true ->
      truthy (msg_message msg) = true \/ msg_media msg <> None ->
      content_of msg <> [] ->
      calls (snd q)
      = [primary_call (target_channel (config st)) msg (content_of msg);
         send_message (target_channel (config st))
                      (slice_to 4000 (content_of msg))]).
Proof.
  intros q.
  assert (Hst : fst q = st).
  { subst q. destruct (channel_item_cases st msg SendFailed o2)
      as [[H _] | (_ & _ & _ & _ & H)]; rewrite H; reflexivity. }
  repeat apply conj.
  - exact Hst.
  - subst q. destruct (channel_item_cases st msg SendFailed o2)
      as [[H _] | (_ & _ & _ & _ & H)]; rewrite H; [reflexivity|].
    simpl. apply persisted_fallback.
  - intros k. induction k as [|k IH]; [reflexivity|].
    simpl. rewrite IH. exact Hst.
  - rewrite Hst. reflexivity.
  - intros Hnin Hgate Hitem Hcontent. subst q.
    destruct (channel_item_cases st msg SendFailed o2)
      as [[_ Hc] | (_ & _ & _ & _ & H)].
    + destruct Hc as [[Hm1 Hm2] | [Hc | [Hc | Hc]]];
        [| | contradiction | congruence].
      * destruct Hitem; congruence.
      * pose proof (content_truthy msg Hcontent). congruence.
    + rewrite H. simpl. rewrite calls_fallback.
      destruct (content_of msg); [congruence | reflexivity].
Qed.

End PipelineFacts.

(** ** The loop state *)

Section LoopState.

Variable md5_hexdigest : text -> text.
Variable media_repr : media -> text.

#[local] Abbreviation step := (step md5_hexdigest media_repr).
#[local] Abbreviation reachable := (reachable md5_hexdigest media_repr).

Lemma target_clean_sources (c : Config) :
  target_channel (clean_sources c) = target_channel c.
Proof.
  unfold clean_sources. destruct (truthy (target_channel c)); [|reflexivity].
  destruct (target_channel c) eqn:E; [|exact E].
  case_bool_decide; simpl; congruence.
Qed.

Lemma starts_with_at_truthy (s : text) :
  starts_with (txt "@") s = true -> truthy (Some s) = true.
Proof. destruct s; [discriminate | reflexivity]. Qed.

Ltac same_view :=
  simpl; rewrite ?target_clean_sources; repeat split; auto.

Lemma handle_text_view (st : state) (m : incoming) (ok : bool) :
  same_loop_view st (handle_text st m ok).
Proof.
  unfold handle_text, same_loop_view, destination_set.
  destruct m as [|t]; [same_view|].
  destruct (awaiting_target_channel st).
  { destruct (starts_with (txt "@") (strip t)) eqn:Hat; [|same_view].
    destruct ok; [|same_view].
    same_view. right. apply starts_with_at_truthy. exact Hat. }
  repeat case_match; same_view.
Qed.

Lemma confirm_remove_view (st : state) (h : text) :
  same_loop_view st (confirm_remove_handler md5_hexdigest st h).
Proof.
  unfold confirm_remove_handler, list_sources_handler, same_loop_view,
    destination_set.
  repeat case_match; same_view.
Qed.

Lemma site_item_view (st : state) (r : fetch_result) (o : send_outcome) :
  same_loop_view st (fst (site_item md5_hexdigest st r o)).
Proof.
  unfold site_item, record_sent, same_loop_view, destination_set.
  repeat case_match; same_view.
Qed.

Lemma channel_item_view (st : state) (msg : message) (o1 o2 : send_outcome) :
  same_loop_view st (fst (channel_item md5_hexdigest media_repr st msg o1 o2)).
Proof.
  unfold channel_item, channel_body, record_sent, same_loop_view,
    destination_set.
  repeat case_match; same_view.
Qed.

Lemma same_loop_view_invariant (st st' : state) :
  same_loop_view st st' ->
  running_has_destination st -> running_has_destination st'.
Proof.
  unfold same_loop_view, running_has_destination, destination_set.
  intros (Ha & Ht & Hd) Hinv Hrun. rewrite Ha, Ht in Hrun.
  destruct Hd as [Hd | Hd]; [rewrite Hd; auto | exact Hd].
Qed.

Lemma step_invariant (st st' : state) :
  step st st' -> running_has_destination st -> running_has_destination st'.
Proof.
  intros Hstep Hinv. destruct Hstep.
  - unfold start_parsing_handler.
    destruct (truthy (target_channel (config st))) eqn:Ht; simpl; [|exact Hinv].
    destruct (parsing_active st); simpl; [exact Hinv|].
    intros _. exact Ht.
  - unfold stop_parsing_handler.
    destruct (parsing_active st) eqn:Ha; simpl; [|exact Hinv].
    intros [H | H]; simpl in H; [discriminate|].
    destruct (parsing_task st); discriminate.
  - intros _. apply Hinv. right. assumption.
  - exact Hinv.
  - exact Hinv.
  - eapply same_loop_view_invariant; [|exact Hinv].
    unfold list_sources_handler, same_loop_view, destination_set. same_view.
  - eapply same_loop_view_invariant; [apply handle_text_view | exact Hinv].
  - eapply same_loop_view_invariant; [apply confirm_remove_view | exact Hinv].
  - eapply same_loop_view_invariant; [apply site_item_view | exact Hinv].
  - eapply same_loop_view_invariant; [apply channel_item_view | exact Hinv].
Qed.

Lemma reachable_invariant (st : state) :
  reachable st -> running_has_destination st.
Proof.
  induction 1 as [f c Hinit | st st' Hreach IH Hstep].
  - intros [H | H]; discriminate.
  - eapply step_invariant; eauto.
Qed.

(** C5: in every state the program can reach, Start is accepted exactly
    when the loop is idle and a destination is set, and then the loop is on
    and its task scheduled.  With no destination Start is rejected and
    nothing changes: the loop was idle and stays idle, no task is pending.
    With the loop on, Start changes nothing and answers that parsing is
    already running. *)
Theorem start_accepted_only_when_idle_with_destination (st : state) :
  reachable st ->
  (snd (start_parsing_handler st) = AnswerStarted
   <-> parsing_active st = false /\ destination_set st = true)
  /\ (snd (start_parsing_handler st) = AnswerStarted ->
      parsing_active (fst (start_parsing_handler st)) = true
      /\ parsing_task (fst (start_parsing_handler st)) = Some TaskPending)
  /\ (destination_set st = false ->
      start_parsing_handler st = (st, AnswerNoTarget)
      /\ parsing_active st = false
      /\ parsing_task st <> Some TaskPending)
  /\ (parsing_active st = true ->
      start_parsing_handler st = (st, AnswerAlreadyRunning)).
Proof.
  intros Hreach. pose proof (reachable_invariant st Hreach) as Hinv.
  unfold running_has_destination in Hinv.
  unfold start_parsing_handler, destination_set in *.
  destruct (truthy (target_channel (config st))) eqn:Ht;
    destruct (parsing_active st) eqn:Ha; simpl.
  - repeat split; try discriminate; try tauto. intros [? _]. discriminate.
  - repeat split; try discriminate; tauto.
  - exfalso. assert (false = true) by (apply Hinv; left; reflexivity).
    discriminate.
  - repeat split; try discriminate; try tauto.
    + intros [_ ?]. discriminate.
    + intros Htask. assert (false = true) by (apply Hinv; right; exact Htask).
      discriminate.
Qed.

End LoopState.

(** ** The site message *)

Lemma length_slice_to (n : nat) (s : text) : length (slice_to n s) <= n.
Proof. unfold slice_to. rewrite length_take. lia. Qed.

Lemma site_message_snippet (snippet : text) :
  length snippet <= 1000 -> site_message snippet = snippet ++ txt "...".
Proof.
  intros H. unfold site_message.
  assert (Hlen : length (snippet ++ txt "...") = length snippet + 3).
  { rewrite length_app. reflexivity. }
  destruct (Nat.ltb_spec 4000 (length (snippet ++ txt "..."))) as [Hlt|Hge];
    [lia | reflexivity].
Qed.

(** C6, as stated, fails: a short text is not cut, and still gets the
    ellipsis. *)
Lemma site_message_ellipsis_counterexample :
  length (txt "Hi") <= 1000
  /\ site_message (slice_to 1000 (txt "Hi")) = txt "Hi..."
  /\ site_message (slice_to 1000 (txt "Hi"))
     <> site_message_spec (slice_to 1000 (txt "Hi")).
Proof.
  split; [vm_compute; lia|]. split; [reflexivity|]. vm_compute. discriminate.
Qed.

(** C6, amended: the snippet is the first 1000 characters of the extracted
    text; the message sent for a site is always the snippet followed by
    [...], whether or not the text was cut, so it has at most 1003
    characters and the cut at 4000 never applies.  Any call a site scan
    makes carries exactly that message. *)
Theorem site_message_is_snippet_with_ellipsis
    (md5_hexdigest : text -> text) (st : state) (status : Z) (text0 : text)
    (o : send_outcome) :
  let snippet := slice_to 1000 text0 in
  snippet = take 1000 text0
  /\ length snippet = Nat.min 1000 (length text0)
  /\ site_message snippet = snippet ++ txt "..."
  /\ length (site_message snippet) <= 1003
  /\ (calls (snd (site_item md5_hexdigest st (Response status text0) o)) = []
      \/ calls (snd (site_item md5_hexdigest st (Response status text0) o))
         = [send_message (target_channel (config st)) (snippet ++ txt "...")]).
Proof.
  intros snippet.
  assert (Hmsg : site_message snippet = snippet ++ txt "...").
  { apply site_message_snippet, length_slice_to. }
  repeat apply conj.
  - reflexivity.
  - subst snippet. unfold slice_to. apply length_take.
  - exact Hmsg.
  - rewrite Hmsg, length_app. pose proof (length_slice_to 1000 text0) as Hl.
    fold snippet in Hl. change (length (txt "...")) with 3. lia.
  - destruct (site_item_cases md5_hexdigest st status text0 o)
      as [(_ & H & _) | (_ & _ & _ & _ & H)]; [left; exact H | right].
    fold snippet in H. rewrite Hmsg in H.
    destruct o; rewrite H; reflexivity.
Qed.

(** ** Loading and saving the configuration *)

(** C7, as stated, fails: a document that is well-formed JSON but not an
    object makes [load], and so the constructor, raise. *)
Lemma load_raises_counterexample :
  Config_init (Parsed (JArr [])) = Raise AttributeError
  /\ Config_init (Parsed (JArr [])) <> Return default_config.
Proof. split; [reflexivity | discriminate]. Qed.

(** C7, amended: when the file is missing ([FileNotFoundError]) or is not
    well-formed JSON ([JSONDecodeError]), [load] returns normally and leaves
    the configuration as it was, which in the constructor is the empty
    defaults: no sources, no keywords, no target channel, no hash. *)
Theorem load_falls_back_on_missing_or_malformed (self : Config) :
  load self NoFile = Return self
  /\ load self NotJSON = Return self
  /\ Config_init NoFile = Return default_config
  /\ Config_init NotJSON = Return default_config
  /\ channels default_config = [] /\ sites default_config = []
  /\ keywords default_config = [] /\ target_channel default_config = None
  /\ sent_hashes default_config = ∅.
Proof. repeat split. Qed.

Lemma list_remove_not_in (x : text) (l : list text) :
  NoDup l -> x ∉ list_remove x l.
Proof.
  induction 1 as [|y l Hy Hnd IH]; simpl.
  - apply not_elem_of_nil.
  - destruct (decide (x = y)) as [->|Hne]; [exact Hy|].
    rewrite not_elem_of_cons. split; assumption.
Qed.

(** When the channel list has no duplicate, [clean_sources] does exclude the
    destination. *)
Lemma clean_sources_excludes (c : Config) (t : text) :
  NoDup (channels c) -> target_channel c = Some t -> t <> [] ->
  t ∉ channels (clean_sources c).
Proof.
  intros Hnd Ht Hne. unfold clean_sources. rewrite Ht.
  destruct t as [|a t]; [congruence|]. simpl.
  case_bool_decide as Hin; [|exact Hin].
  simpl. apply list_remove_not_in. exact Hnd.
Qed.

(** C8 fails on the code: [clean_sources] removes one occurrence only, so a
    loaded configuration that lists the destination twice still has it among
    its sources, and so has the document a later [save] writes when it was
    listed three times. *)
Theorem clean_sources_leaves_duplicate :
  (exists c, Config_init (Parsed duplicated_source_document) = Return c
             /\ target_channel c = Some (txt "@a")
             /\ txt "@a" ∈ channels c)
  /\ (let c := mkConfig [txt "@a"; txt "@a"; txt "@a"] [] [] (Some (txt "@a")) ∅ in
      txt "@a" ∈ channels (fst (save c))
      /\ snd (save c)
         = Parsed (dump (mkConfig [txt "@a"; txt "@a"] [] [] (Some (txt "@a")) ∅))).
Proof.
  split.
  - eexists. split; [reflexivity|]. split; [reflexivity|].
    apply list_elem_of_here.
  - split; [apply list_elem_of_here | reflexivity].
Qed.

(** ** The blacklist table *)

Lemma insert_or_ignore_idem (x : text) (rows : list text) :
  insert_or_ignore x (insert_or_ignore x rows) = insert_or_ignore x rows.
Proof.
  unfold insert_or_ignore. destruct (bool_decide (x ∈ rows)) eqn:E.
  - rewrite E. reflexivity.
  - rewrite (bool_decide_eq_true_2 (x ∈ rows ++ [x])); [reflexivity|].
    apply elem_of_app. right. apply list_elem_of_here.
Qed.

Lemma insert_or_ignore_NoDup (x : text) (rows : list text) :
  NoDup rows -> NoDup (insert_or_ignore x rows).
Proof.
  intros Hnd. unfold insert_or_ignore. case_bool_decide as Hin; [exact Hnd|].
  apply NoDup_app. split; [exact Hnd|]. split.
  - intros y Hy Hy'. apply list_elem_of_singleton in Hy'. subst y. contradiction.
  - apply NoDup_singleton.
Qed.

(** C10: [add_blacklist] is idempotent: adding a phrase a second time leaves
    the database as the first addition left it, with the same result; the
    blacklist table filled by [add_blacklist] from a new database never
    holds a phrase twice; and every string returned by [get_blacklist] is in
    lower case. *)
Theorem add_blacklist_idempotent (phrase : text) (d : database)
    (phrases : list text) :
  add_blacklist phrase (fst (add_blacklist phrase d)) = add_blacklist phrase d
  /\ NoDup (stored_blacklist
              (fold_left (fun db p => fst (add_blacklist p db)) phrases
                         (init_db None)))
  /\ (forall l s, get_blacklist d = Return l -> s ∈ l -> lower s = s).
Proof.
  repeat apply conj.
  - destruct d as [t|]; [|reflexivity]. simpl.
    rewrite insert_or_ignore_idem. reflexivity.
  - assert (H : forall db, NoDup (stored_blacklist db) ->
                NoDup (stored_blacklist
                         (fold_left (fun db p => fst (add_blacklist p db))
                                    phrases db))).
    { induction phrases as [|p ps IH]; intros db Hdb; [exact Hdb|].
      simpl. apply IH. destruct db as [t|]; simpl; [|apply NoDup_nil_2].
      apply insert_or_ignore_NoDup. exact Hdb. }
    apply H. simpl. apply NoDup_nil_2.
  - intros l s Hget Hin. destruct d as [t|]; [|discriminate].
    injection Hget as <-. apply list_elem_of_fmap in Hin as [y [-> _]].
    apply lower_idem.
Qed.

(** ** Instances on concrete inputs *)

Lemma already_sent_item_is_skipped_witness :
  let st := demo_state {[ txt "page"; txt "helloNone" ]} in
  fst (site_item demo_hash st (Response 200 (txt "page")) Sent) = st
  /\ calls (snd (site_item demo_hash st (Response 200 (txt "page")) Sent)) = []
  /\ calls (snd (channel_item demo_hash demo_repr st demo_message Sent Sent)) = [].
Proof.
  intros st.
  destruct (already_sent_item_is_skipped demo_hash demo_repr st 200
              (txt "page") Sent demo_message Sent Sent) as [Hsite Hchan].
  assert (H1 : txt "page" ∈ sent_hashes (config st)).
  { apply elem_of_union_l, elem_of_singleton. reflexivity. }
  assert (H2 : txt "helloNone" ∈ sent_hashes (config st)).
  { apply elem_of_union_r, elem_of_singleton. reflexivity. }
  destruct (Hsite H1) as (Ha & Hb & _).
  destruct (Hchan H2) as (_ & Hc & _).
  split; [exact Ha | split; [exact Hb | exact Hc]].
Defined.

Lemma flood_wait_records_nothing_witness :
  let st := demo_state ∅ in
  let cs := send_message (Some (txt "@dst")) (txt "page...") in
  let cc := send_message (Some (txt "@dst")) (txt "hello") in
  (site_item demo_hash st (Response 200 (txt "page")) (FloodWaitError 30)
   = (st, [LogInfo; Publish cs; LogError; Sleep 30])
   /\ calls (snd (site_item demo_hash st (Response 200 (txt "page")) SendFailed))
      = [cs])
  /\ (channel_item demo_hash demo_repr st demo_message (FloodWaitError 30) Sent
      = (st, [Publish cc; LogError; Sleep 30])
      /\ exists more,
          calls (snd (channel_item demo_hash demo_repr st demo_message
                        SendFailed Sent)) = cc :: more)
  /\ (Sent = Sent
      /\ snd (site_item demo_hash st (Response 200 (txt "page")) Sent)
         = [LogInfo; Publish cs; Persist; LogInfo])
  /\ (Sent = Sent
      /\ snd (channel_item demo_hash demo_repr st demo_message Sent Sent)
         = [Publish cc; Persist; LogInfo]).
Proof.
  intros st cs cc.
  destruct (flood_wait_records_nothing demo_hash demo_repr st 200 (txt "page")
              demo_message 30 SendFailed SendFailed Sent Sent)
    as (Hsite & Hchan & _).
  destruct (flood_wait_records_nothing demo_hash demo_repr st 200 (txt "page")
              demo_message 30 Sent Sent Sent Sent)
    as (_ & _ & _ & _ & Honly_site & Honly_chan).
  destruct Hsite as (Hs1 & Hs2 & Hs3 & Hs4);
    [reflexivity | discriminate | apply not_elem_of_empty | reflexivity |].
  destruct Hchan as (Hc1 & Hc2 & Hc3 & Hc4);
    [left; reflexivity | reflexivity | apply not_elem_of_empty | reflexivity |].
  repeat apply conj.
  - exact Hs1.
  - exact Hs2.
  - exact Hc1.
  - exact Hc2.
  - apply Honly_site. rewrite Hs3. intros E.
    apply (not_elem_of_empty (C := gset text) (txt "page")).
    change (txt "page" ∈ sent_hashes (config st)). rewrite <- E. exact Hs4.
  - apply Honly_site. rewrite Hs3. intros E.
    apply (not_elem_of_empty (C := gset text) (txt "page")).
    change (txt "page" ∈ sent_hashes (config st)). rewrite <- E. exact Hs4.
  - apply Honly_chan. rewrite Hc3. intros E.
    apply (not_elem_of_empty (C := gset text) (txt "helloNone")).
    change (txt "helloNone" ∈ sent_hashes (config st)). rewrite <- E. exact Hc4.
  - apply Honly_chan. rewrite Hc3. intros E.
    apply (not_elem_of_empty (C := gset text) (txt "helloNone")).
    change (txt "helloNone" ∈ sent_hashes (config st)). rewrite <- E. exact Hc4.
Defined.

Lemma fallback_delivery_is_not_recorded_witness :
  let st := demo_state ∅ in
  fst (channel_item demo_hash demo_repr st demo_message SendFailed Sent) = st
  /\ calls (snd (channel_item demo_hash demo_repr st demo_message SendFailed Sent))
     = [send_message (Some (txt "@dst")) (txt "hello");
        send_message (Some (txt "@dst")) (txt "hello")].
Proof.
  intros st.
  destruct (fallback_delivery_is_not_recorded demo_hash demo_repr st
              demo_message Sent) as (Hst & _ & _ & _ & Hcalls).
  split; [exact Hst|].
  apply Hcalls.
  - apply not_elem_of_empty.
  - reflexivity.
  - left. reflexivity.
  - discriminate.
Defined.

Lemma start_accepted_only_when_idle_with_destination_witness :
  let st0 := initial (Parsed (JObj [(txt "target_channel", JStr (txt "@dst"))]))
                     (mkConfig [] [] [] (Some (txt "@dst")) ∅) in
  let st1 := fst (start_parsing_handler st0) in
  reachable demo_hash demo_repr st1
  /\ parsing_active st1 = true
  /\ start_parsing_handler st1 = (st1, AnswerAlreadyRunning).
Proof.
  intros st0 st1.
  assert (Hreach : reachable demo_hash demo_repr st1).
  { apply (reach_step demo_hash demo_repr st0).
    - apply reach_init. reflexivity.
    - apply step_start. }
  destruct (start_accepted_only_when_idle_with_destination demo_hash demo_repr
              st1 Hreach) as (_ & _ & _ & Hrun).
  split; [exact Hreach|]. split; [reflexivity|]. apply Hrun. reflexivity.
Defined.

Lemma add_blacklist_idempotent_witness :
  let d := fst (add_blacklist (txt "Spam") (init_db None)) in
  get_blacklist d = Return [txt "spam"]
  /\ lower (txt "spam") = txt "spam".
Proof.
  intros d.
  destruct (add_blacklist_idempotent (txt "Spam") d []) as (_ & _ & Hlow).
  split; [reflexivity|].
  apply (Hlow [txt "spam"]); [reflexivity | apply list_elem_of_here].
Defined.

(** ** The sanitizer *)

Lemma drop_while_suffix (p : ascii -> bool) (s : text) :
  exists pre, s = pre ++ drop_while p s /\ Forall (fun c => p c = true) pre.
Proof.
  induction s as [|c s [pre [Hs Hp]]]; simpl.
  - exists []. split; [reflexivity | constructor].
  - destruct (p c) eqn:Hc.
    + exists (c :: pre). split; [simpl; congruence | constructor; assumption].
    + exists []. split; [reflexivity | constructor].
Qed.

Lemma drop_while_head (p : ascii -> bool) (s : text) (c : ascii) (r : text) :
  drop_while p s = c :: r -> p c = false.
Proof.
  induction s as [|d s IH]; simpl; [discriminate|].
  destruct (p d) eqn:Hd; [exact IH|].
  intros H. injection H as -> _. exact Hd.
Qed.

Lemma plus_tail_total {X} (p : ascii -> bool) (s : text) (k : text -> option X) :
  (forall s1, k s1 <> None) -> plus_tail p s k = k (drop_while p s).
Proof.
  intros Hk. induction s as [|c s IH]; simpl; [reflexivity|].
  destruct (p c); [|reflexivity].
  rewrite IH. destruct (k (drop_while p s)) eqn:E; [reflexivity|].
  exfalso. eapply Hk. exact E.
Qed.

Lemma plus_tail_from_k {X} (p : ascii -> bool) (s : text) (k : text -> option X) (x : X) :
  plus_tail p s k = Some x -> exists s1, k s1 = Some x.
Proof.
  induction s as [|c s IH]; simpl; [eauto|].
  destruct (p c); [|eauto].
  destruct (plus_tail p s k) eqn:E; [|eauto].
  intros H. injection H as ->. apply IH. reflexivity.
Qed.

Lemma re_match_from_k {X} (r : regex) (s : text) (g : option text)
    (k : text -> option text -> option X) (x : X) :
  re_match r s g k = Some x -> exists s1 g1, k s1 g1 = Some x.
Proof.
  revert s g k. induction r as [|p|a IHa b IHb|a IHa b IHb|p|a IHa];
    intros s g k; simpl.
  - eauto.
  - destruct s as [|c s]; [discriminate|]. destruct (p c); [eauto | discriminate].
  - intros H. apply IHa in H as (s1 & g1 & H). apply IHb in H. exact H.
  - destruct (re_match a s g k) eqn:E.
    + intros H. injection H as ->. apply IHa in E. exact E.
    + apply IHb.
  - destruct s as [|c s]; [discriminate|]. destruct (p c); [|discriminate].
    intros H. apply plus_tail_from_k in H as [s1 H]. eauto.
  - intros H. apply IHa in H as (s1 & g1 & H). eauto.
Qed.

Lemma match_here_le (r : regex) (s : text) (n : nat) (g : option text) :
  match_here r s = Some (n, g) -> n <= length s.
Proof.
  unfold match_here. intros H. apply re_match_from_k in H as (s1 & g1 & H).
  injection H as <- _. lia.
Qed.

Lemma sub_from_skip (r : regex) (rp : repl) (n : nat) (s : text) :
  n <= length s -> sub_from r rp n s = re_sub r rp (drop n s).
Proof.
  unfold re_sub. revert n. induction s as [|c s IH]; intros n Hn.
  - destruct n; [reflexivity | simpl in Hn; lia].
  - destruct n as [|n]; [reflexivity|]. simpl. apply IH. simpl in Hn. lia.
Qed.

Lemma re_sub_cons (r : regex) (rp : repl) (c : ascii) (s : text) :
  re_sub r rp (c :: s)
  = match match_here r (c :: s) with
    | Some (O, g) => expand rp g ++ c :: re_sub r rp s
    | Some (S n, g) => expand rp g ++ re_sub r rp (drop n s)
    | None => c :: re_sub r rp s
    end.
Proof.
  unfold re_sub at 1. simpl.
  destruct (match_here r (c :: s)) as [[[|n] g]|] eqn:E; try reflexivity.
  rewrite sub_from_skip; [reflexivity|].
  apply match_here_le in E. simpl in E. lia.
Qed.

Lemma re_sub_scan (r : regex) (t : text) (m : text -> option text) :
  scans r m ->
  forall s,
    re_sub r (Const t) s
    = match m s with
      | Some rest => t ++ re_sub r (Const t) rest
      | None =>
          match s with
          | [] => []
          | c :: s' => c :: re_sub r (Const t) s'
          end
      end.
Proof.
  intros [Hm Hpre] s. specialize (Hm s).
  destruct (m s) as [rest|] eqn:Em.
  - destruct (Hpre s rest Em) as (pre & Hne & Hs).
    destruct pre as [|c pre]; [congruence|]. subst s.
    simpl in Hm. simpl. rewrite re_sub_cons.
    destruct (match_here r (c :: pre ++ rest)) as [[n g]|]; [|discriminate].
    simpl in Hm. injection Hm as Hn.
    rewrite length_app in Hn.
    replace n with (S (length pre)) by lia.
    simpl. rewrite drop_app_length. reflexivity.
  - destruct s as [|c s]; simpl in Hm.
    + unfold re_sub. simpl. destruct (match_here r []) as [[n g]|]; [discriminate|].
      reflexivity.
    + rewrite re_sub_cons.
      destruct (match_here r (c :: s)) as [[n g]|]; [discriminate|].
      reflexivity.
Qed.

Lemma re_match_literal {X} (p s : text) (g : option text)
    (k : text -> option text -> option X) :
  re_match (literal false p) s g k
  = if starts_with p s then k (drop (length p) s) g else None.
Proof.
  revert s. induction p as [|a p IH]; intros s; simpl; [reflexivity|].
  destruct s as [|c s]; [reflexivity|].
  unfold lit_char. rewrite Ascii.eqb_sym.
  destruct (Ascii.eqb a c); [apply IH | reflexivity].
Qed.

Lemma re_match_plus_total {X} (q : ascii -> bool) (s : text) (g : option text)
    (k : text -> option text -> option X) :
  (forall s1, k s1 g <> None) ->
  re_match (Plus q) s g k
  = match plus_rest q s with Some rest => k rest g | None => None end.
Proof.
  intros Hk. destruct s as [|c s]; simpl; [reflexivity|].
  destruct (q c); [|reflexivity].
  apply (plus_tail_total q s (fun s1 => k s1 g)). exact Hk.
Qed.

Lemma re_match_seq {X} (a b : regex) (s : text) (g : option text)
    (k : text -> option text -> option X) :
  re_match (Seq a b) s g k = re_match a s g (fun s1 g1 => re_match b s1 g1 k).
Proof. reflexivity. Qed.

Lemma match_here_plus (q : ascii -> bool) (s : text) :
  match_here (Plus q) s
  = (fun rest => (length s - length rest, None)) <$> plus_rest q s.
Proof.
  unfold match_here.
  rewrite (re_match_plus_total q s None
             (fun s1 g => Some (length s - length s1, g))); [|discriminate].
  destruct (plus_rest q s); reflexivity.
Qed.

Lemma match_here_lit_plus (p : text) (q : ascii -> bool) (s : text) :
  match_here (Seq (literal false p) (Plus q)) s
  = (fun rest => (length s - length rest, None)) <$> lit_plus_rest p q s.
Proof.
  unfold match_here, lit_plus_rest. rewrite re_match_seq, re_match_literal.
  destruct (starts_with p s); [|reflexivity].
  rewrite re_match_plus_total; [|discriminate].
  destruct (plus_rest q (drop (length p) s)); reflexivity.
Qed.

Lemma plus_rest_suffix (q : ascii -> bool) (s rest : text) :
  plus_rest q s = Some rest ->
  exists pre, pre <> [] /\ s = pre ++ rest /\ Forall (fun c => q c = true) pre.
Proof.
  destruct s as [|c s]; simpl; [discriminate|].
  destruct (q c) eqn:Hc; [|discriminate].
  intros H. injection H as <-.
  destruct (drop_while_suffix q s) as (pre & Hs & Hq).
  exists (c :: pre). split; [discriminate|]. split; [simpl; congruence|].
  constructor; assumption.
Qed.

Lemma lit_plus_rest_suffix (p : text) (q : ascii -> bool) (s rest : text) :
  lit_plus_rest p q s = Some rest ->
  exists pre, pre <> [] /\ s = p ++ pre ++ rest
              /\ Forall (fun c => q c = true) pre.
Proof.
  unfold lit_plus_rest. destruct (starts_with p s) eqn:Hp; [|discriminate].
  apply starts_with_spec in Hp as [b ->].
  rewrite drop_app_length. intros H.
  apply plus_rest_suffix in H as (pre & Hne & -> & Hq). eauto.
Qed.

Lemma plus_rest_eq (q : ascii -> bool) (s rest : text) :
  plus_rest q s = Some rest -> rest = drop_while q s.
Proof.
  destruct s as [|c s]; simpl; [discriminate|].
  destruct (q c); [|discriminate]. congruence.
Qed.

Lemma drop_while_app (q : ascii -> bool) (p s : text) :
  Forall (fun c => q c = true) p -> drop_while q (p ++ s) = drop_while q s.
Proof.
  induction 1 as [|c p Hc Hp IH]; simpl; [reflexivity|]. rewrite Hc. exact IH.
Qed.

Lemma lit_plus_rest_eq (p : text) (q : ascii -> bool) (s rest : text) :
  Forall (fun c => q c = true) p ->
  lit_plus_rest p q s = Some rest -> rest = drop_while q s.
Proof.
  intros Hp. unfold lit_plus_rest.
  destruct (starts_with p s) eqn:Hs; [|discriminate].
  apply starts_with_spec in Hs as [b ->]. rewrite drop_app_length.
  intros H. apply plus_rest_eq in H. rewrite drop_while_app; assumption.
Qed.

(** *** The pass that removes the links *)

Lemma scans_links : scans re_links links_rest.
Proof.
  split.
  - intros s. unfold re_links, links_rest.
    change (match_here (Alt ?a ?b) s)
      with (match match_here a s with
            | Some x => Some x
            | None => match_here b s
            end).
    rewrite !match_here_lit_plus.
    destruct (lit_plus_rest (txt "http") not_space s); [reflexivity|].
    destruct (lit_plus_rest (txt "t.me/") not_space s); reflexivity.
  - intros s rest. unfold links_rest.
    destruct (lit_plus_rest (txt "http") not_space s) eqn:E1.
    + intros H. injection H as ->.
      apply lit_plus_rest_suffix in E1 as (pre & _ & -> & _).
      exists (txt "http" ++ pre). split; [discriminate|].
      rewrite <- app_assoc. reflexivity.
    + intros E2.
      apply lit_plus_rest_suffix in E2 as (pre & _ & -> & _).
      exists (txt "t.me/" ++ pre). split; [discriminate|].
      rewrite <- app_assoc. reflexivity.
Qed.

Lemma links_rest_eq (s rest : text) :
  links_rest s = Some rest -> rest = drop_while not_space s.
Proof.
  unfold links_rest.
  destruct (lit_plus_rest (txt "http") not_space s) eqn:E1.
  - intros H. injection H as ->. revert E1. apply lit_plus_rest_eq.
    repeat constructor.
  - apply lit_plus_rest_eq. repeat constructor.
Qed.

Lemma links_rest_none (b : text) (x : ascii) :
  links_rest (txt "http" ++ x :: b) = None -> isspace x = true.
Proof.
  unfold links_rest, lit_plus_rest. simpl. unfold not_space.
  destruct (isspace x); [reflexivity | discriminate].
Qed.

Lemma text_length_ind (P : text -> Prop) :
  (forall s, (forall s', length s' < length s -> P s') -> P s) ->
  forall s, P s.
Proof.
  intros H s. remember (length s) as n eqn:Hn. revert s Hn.
  induction n as [n IH] using lt_wf_ind. intros s ->.
  apply H. intros s' Hlt. apply (IH (length s')); [exact Hlt | reflexivity].
Qed.

Lemma no_link_suffix (pre s : text) : no_link (pre ++ s) -> no_link s.
Proof.
  intros H a b x Hs. apply (H (pre ++ a) b x). rewrite Hs, <- app_assoc.
  reflexivity.
Qed.

Lemma no_link_prefix (s post : text) : no_link (s ++ post) -> no_link s.
Proof.
  intros H a b x Hs. apply (H a (b ++ post) x). rewrite Hs.
  rewrite <- !app_assoc. reflexivity.
Qed.

Lemma no_link_cons (d : ascii) (s : text) :
  no_link s ->
  (forall x b, d :: s = txt "http" ++ x :: b -> isspace x = true) ->
  no_link (d :: s).
Proof.
  intros Hs Hd a b x H. destruct a as [|a0 a].
  - apply (Hd x b). exact H.
  - injection H as _ H. apply (Hs a b x). exact H.
Qed.

(** The tail of the output of a scan whose replacement has at most one
    character is the output for a proper suffix of the input. *)
Lemma scan_tail (r : regex) (t : text) (m : text -> option text) :
  scans r m -> length t <= 1 ->
  forall s d out,
    re_sub r (Const t) s = d :: out ->
    exists pre s1, pre <> [] /\ s = pre ++ s1 /\ out = re_sub r (Const t) s1.
Proof.
  intros Hsc Ht s. induction s as [s IH] using text_length_ind. intros d out.
  rewrite (re_sub_scan r t m Hsc s).
  destruct (m s) as [rest|] eqn:Em.
  - destruct (proj2 Hsc s rest Em) as (pre & Hne & ->).
    destruct t as [|w [|w' t]]; [| |simpl in Ht; lia]; simpl; intros H.
    + destruct (IH rest) with (d := d) (out := out)
        as (pre1 & s1 & Hne1 & -> & Hout).
      * rewrite length_app. destruct pre; [congruence | simpl; lia].
      * exact H.
      * exists (pre ++ pre1), s1. split; [|split].
        -- destruct pre; [congruence | discriminate].
        -- rewrite app_assoc. reflexivity.
        -- exact Hout.
    + injection H as _ <-. exists pre, rest. auto.
  - destruct s as [|c s]; [discriminate|]. simpl. intros H.
    injection H as -> <-. exists [d], s. split; [discriminate|].
    split; reflexivity.
Qed.

(** A character of the output that neither the replacement nor the start of
    a rest can supply was copied from the head of the input. *)
Lemma scan_head (r : regex) (t : text) (m : text -> option text)
    (good : ascii -> bool) :
  scans r m ->
  Forall (fun c => good c = false) t ->
  (t = [] ->
   forall s rest w rest0, m s = Some rest -> rest = w :: rest0 -> good w = false) ->
  forall s d out,
    re_sub r (Const t) s = d :: out -> good d = true ->
    m s = None /\ exists s1, s = d :: s1 /\ out = re_sub r (Const t) s1.
Proof.
  intros Hsc Ht Hrest s. induction s as [s IH] using text_length_ind.
  intros d out. rewrite (re_sub_scan r t m Hsc s).
  destruct (m s) as [rest|] eqn:Em.
  - destruct (proj2 Hsc s rest Em) as (pre & Hne & ->).
    destruct t as [|w t]; simpl; intros H Hd.
    + exfalso. destruct (IH rest) with (d := d) (out := out)
        as (_ & s1 & -> & _); try assumption.
      * rewrite length_app. destruct pre; [congruence | simpl; lia].
      * rewrite (Hrest eq_refl _ _ d s1 Em eq_refl) in Hd. discriminate.
    + exfalso. injection H as -> _. inversion Ht; subst. congruence.
  - destruct s as [|c s]; [discriminate|]. simpl. intros H _.
    injection H as -> <-. split; [reflexivity|]. exists s. auto.
Qed.

Lemma scan_head_prefix (r : regex) (t : text) (m : text -> option text)
    (good : ascii -> bool) :
  scans r m ->
  Forall (fun c => good c = false) t ->
  (t = [] ->
   forall s rest w rest0, m s = Some rest -> rest = w :: rest0 -> good w = false) ->
  forall p s out,
    Forall (fun c => good c = true) p ->
    re_sub r (Const t) s = p ++ out ->
    (p <> [] -> m s = None)
    /\ exists s1, s = p ++ s1 /\ out = re_sub r (Const t) s1.
Proof.
  intros Hsc Ht Hrest p. induction p as [|d p IH]; intros s out Hp H.
  - split; [congruence|]. exists s. auto.
  - inversion Hp as [|? ? Hd Hp']; subst. simpl in H.
    destruct (scan_head r t m good Hsc Ht Hrest s d (p ++ out) H Hd)
      as (Hm & s1 & -> & Hout).
    symmetry in Hout. destruct (IH s1 out Hp' Hout) as (_ & s2 & -> & Hout2).
    split; [intros _; exact Hm|]. exists s2. auto.
Qed.

(** A scan that copies or deletes keeps [no_link] as soon as the characters
    of [http] and what follows it can only have been copied. *)
Lemma links_rest_start (s rest : text) (w : ascii) (rest0 : text) :
  links_rest s = Some rest -> rest = w :: rest0 -> not_space w = false.
Proof.
  intros H ->. apply links_rest_eq in H. symmetry in H.
  apply drop_while_head in H. exact H.
Qed.

Lemma links_pass_no_link (s : text) : no_link (re_sub re_links (Const []) s).
Proof.
  induction s as [s IH] using text_length_ind.
  destruct (re_sub re_links (Const []) s) as [|d out] eqn:E.
  { intros a b x H. destruct a; discriminate. }
  destruct (scan_tail re_links [] links_rest scans_links (Nat.le_0_l 1) s d out E)
    as (pre & s1 & Hne & Hs & Hout).
  apply no_link_cons.
  - rewrite Hout. apply IH. subst s. rewrite length_app.
    destruct pre; [congruence | simpl; lia].
  - intros x b Hd. destruct (isspace x) eqn:Hx; [reflexivity|]. exfalso.
    rewrite Hd in E.
    change (txt "http" ++ x :: b) with ((txt "http" ++ [x]) ++ b) in E.
    destruct (scan_head_prefix re_links [] links_rest not_space scans_links
                (Forall_nil_2 _) (fun _ => links_rest_start) (txt "http" ++ [x]) s b)
      as (Hnone & s2 & Hs2 & _).
    + unfold txt. simpl. repeat (apply Forall_cons_2; [reflexivity|]).
      apply Forall_cons_2; [|apply Forall_nil_2].
      unfold not_space. rewrite Hx. reflexivity.
    + exact E.
    + rewrite Hs2 in Hnone. rewrite <- app_assoc in Hnone.
      assert (Hx' : isspace x = true).
      { apply (links_rest_none s2 x), Hnone. discriminate. }
      congruence.
Qed.

(** *** The pass that removes the mentions *)

Lemma scans_mention : scans re_mention mention_rest.
Proof.
  split.
  - intros s. unfold re_mention, mention_rest. rewrite match_here_lit_plus.
    destruct (lit_plus_rest (txt "@") isword s); reflexivity.
  - intros s rest H. apply lit_plus_rest_suffix in H as (pre & _ & -> & _).
    exists (txt "@" ++ pre). split; [discriminate|].
    rewrite <- app_assoc. reflexivity.
Qed.

Lemma mention_rest_start (s rest : text) (w : ascii) (rest0 : text) :
  mention_rest s = Some rest -> rest = w :: rest0 -> isword w = false.
Proof.
  unfold mention_rest, lit_plus_rest. intros H ->.
  destruct (starts_with (txt "@") s); [|discriminate].
  apply plus_rest_eq in H.
  symmetry in H. apply drop_while_head in H. exact H.
Qed.

Lemma mention_pass_no_link (s : text) :
  no_link s -> no_link (re_sub re_mention (Const []) s).
Proof.
  induction s as [s IH] using text_length_ind. intros Hs.
  destruct (re_sub re_mention (Const []) s) as [|d out] eqn:E.
  { intros a b x H. destruct a; discriminate. }
  destruct (scan_tail re_mention [] mention_rest scans_mention (Nat.le_0_l 1)
              s d out E) as (pre & s1 & Hne & Hs1 & Hout).
  apply no_link_cons.
  - rewrite Hout. apply IH.
    + subst s. rewrite length_app. destruct pre; [congruence | simpl; lia].
    + subst s. apply no_link_suffix in Hs. exact Hs.
  - intros x b Hd. destruct (isspace x) eqn:Hx; [reflexivity|]. exfalso.
    rewrite Hd in E.
    destruct (scan_head_prefix re_mention [] mention_rest isword scans_mention
                (Forall_nil_2 _) (fun _ => mention_rest_start) (txt "http") s (x :: b))
      as (_ & s4 & Hs4 & Hout4).
    + repeat constructor.
    + exact E.
    + destruct s4 as [|y s5].
      * discriminate.
      * assert (Hy : isspace y = true) by (apply (Hs [] s5 y); exact Hs4).
        rewrite (re_sub_scan re_mention [] mention_rest scans_mention) in Hout4.
        assert (Hm : mention_rest (y :: s5) = None).
        { destruct (mention_rest (y :: s5)) as [rest|] eqn:Hm; [|reflexivity].
          apply lit_plus_rest_suffix in Hm as (pre' & _ & Hy' & _).
          injection Hy' as -> _. discriminate. }
        rewrite Hm in Hout4. injection Hout4 as -> _. congruence.
Qed.

(** *** The pass that collapses white space *)

Lemma scans_spaces : scans re_spaces (plus_rest isspace).
Proof.
  split.
  - intros s. unfold re_spaces. rewrite match_here_plus.
    destruct (plus_rest isspace s); reflexivity.
  - intros s rest H. apply plus_rest_suffix in H as (pre & Hne & -> & _). eauto.
Qed.

Lemma space_is_space : Forall (fun c => not_space c = false) (txt " ").
Proof. apply Forall_cons_2; [reflexivity | apply Forall_nil_2]. Qed.

Lemma spaces_pass_no_link (s : text) :
  no_link s -> no_link (re_sub re_spaces (Const (txt " ")) s).
Proof.
  induction s as [s IH] using text_length_ind. intros Hs.
  destruct (re_sub re_spaces (Const (txt " ")) s) as [|d out] eqn:E.
  { intros a b x H. destruct a; discriminate. }
  destruct (scan_tail re_spaces (txt " ") (plus_rest isspace) scans_spaces
              (Nat.le_refl 1) s d out E) as (pre & s1 & Hne & Hs1 & Hout).
  apply no_link_cons.
  - rewrite Hout. apply IH.
    + subst s. rewrite length_app. destruct pre; [congruence | simpl; lia].
    + subst s. apply no_link_suffix in Hs. exact Hs.
  - intros x b Hd. destruct (isspace x) eqn:Hx; [reflexivity|]. exfalso.
    rewrite Hd in E.
    change (txt "http" ++ x :: b) with ((txt "http" ++ [x]) ++ b) in E.
    destruct (scan_head_prefix re_spaces (txt " ") (plus_rest isspace) not_space
                scans_spaces space_is_space ltac:(discriminate)
                (txt "http" ++ [x]) s b)
      as (_ & s2 & Hs2 & _).
    + unfold txt. simpl. repeat (apply Forall_cons_2; [reflexivity|]).
      apply Forall_cons_2; [|apply Forall_nil_2].
      unfold not_space. rewrite Hx. reflexivity.
    + exact E.
    + rewrite (Hs [] s2 x) in Hx; [discriminate|].
      rewrite Hs2, <- app_assoc. reflexivity.
Qed.

(** *** Stripping *)

Lemma lstrip_suffix (s : text) : exists pre, s = pre ++ lstrip s.
Proof.
  induction s as [|c s [pre IH]]; simpl.
  - exists []. reflexivity.
  - destruct (isspace c).
    + exists (c :: pre). simpl. congruence.
    + exists []. reflexivity.
Qed.

Lemma rstrip_prefix (s : text) : exists post, s = rstrip s ++ post.
Proof.
  unfold rstrip. destruct (lstrip_suffix (rev s)) as [pre H].
  exists (rev pre). rewrite <- rev_app_distr, <- H, rev_involutive. reflexivity.
Qed.

Lemma strip_no_link (s : text) : no_link s -> no_link (strip s).
Proof.
  intros H. unfold strip.
  destruct (lstrip_suffix s) as [pre Hpre].
  destruct (rstrip_prefix (lstrip s)) as [post Hpost].
  rewrite Hpre in H. apply no_link_suffix in H.
  rewrite Hpost in H. apply no_link_prefix in H. exact H.
Qed.

Lemma no_link_no_url (s : text) :
  no_link s ->
  occurs (txt "http://") s = false /\ occurs (txt "https://") s = false.
Proof.
  intros H. split.
  - destruct (occurs (txt "http://") s) eqn:E; [|reflexivity].
    apply occurs_spec in E as (a & b & ->).
    specialize (H a (txt "//" ++ b) ":"%char eq_refl). discriminate.
  - destruct (occurs (txt "https://") s) eqn:E; [|reflexivity].
    apply occurs_spec in E as (a & b & ->).
    specialize (H a (txt "://" ++ b) "s"%char eq_refl). discriminate.
Qed.

Lemma clean_text_no_url (text0 : option text) (signature : option text) :
  truthy signature = false ->
  occurs (txt "http://") (clean_text text0 [] signature) = false
  /\ occurs (txt "https://") (clean_text text0 [] signature) = false.
Proof.
  intros Hsig. apply no_link_no_url. unfold clean_text.
  destruct text0 as [[|c t0]|]; try (intros a b x H; destruct a; discriminate).
  assert (Hbody : no_link (strip (re_sub re_spaces (Const (txt " "))
                    (re_sub re_mention (Const [])
                       (re_sub re_links (Const []) (c :: t0)))))).
  { apply strip_no_link, spaces_pass_no_link, mention_pass_no_link,
      links_pass_no_link. }
  simpl fold_left.
  destruct signature as [[|d sg]|]; [exact Hbody | discriminate | exact Hbody].
Qed.

(** *** Phrases of one character *)

Lemma sub_from_Forall (P : ascii -> Prop) (r : regex) (t : text) (k : nat)
    (s : text) :
  Forall P t -> Forall P s -> Forall P (sub_from r (Const t) k s).
Proof.
  intros Ht. revert k. induction s as [|c s IH]; intros k Hs; simpl.
  - destruct k; [|constructor].
    destruct (match_here r []) as [[n g]|]; [exact Ht | constructor].
  - inversion Hs as [|? ? Hc Hs']; subst.
    destruct k as [|k]; [|apply IH; exact Hs'].
    destruct (match_here r (c :: s)) as [[[|n] g]|]; simpl.
    + apply Forall_app. split; [exact Ht|]. constructor; [exact Hc|].
      apply IH; exact Hs'.
    + apply Forall_app. split; [exact Ht | apply IH; exact Hs'].
    + constructor; [exact Hc | apply IH; exact Hs'].
Qed.

Lemma match_here_one_char (c d : ascii) (s : text) :
  match_here (literal true [c]) (d :: s)
  = if Ascii.eqb (lower_char d) (lower_char c) then Some (1, None) else None.
Proof.
  unfold match_here. simpl. unfold lit_char.
  destruct (Ascii.eqb (lower_char d) (lower_char c)); [|reflexivity].
  rewrite Nat.sub_succ_l, Nat.sub_diag; [reflexivity | lia].
Qed.

Lemma one_char_pass (c : ascii) (k : nat) (s : text) :
  Forall (differs_ci c) (sub_from (literal true [c]) (Const []) k s).
Proof.
  revert k. induction s as [|d s IH]; intros k.
  - simpl. destruct k; [|constructor].
    destruct (match_here (literal true [c]) []) as [[n g]|]; constructor.
  - destruct k as [|k]; [|apply IH].
    cbn [sub_from]. rewrite match_here_one_char.
    destruct (Ascii.eqb_spec (lower_char d) (lower_char c)) as [He|Hne].
    + simpl. apply IH.
    + constructor; [exact Hne | apply IH].
Qed.

Lemma remove_phrases_Forall (P : ascii -> Prop) (blacklist : list text) (s : text) :
  Forall P s -> Forall P (remove_phrases blacklist s).
Proof.
  revert s. induction blacklist as [|p bl IH]; intros s Hs; simpl; [exact Hs|].
  apply IH. apply sub_from_Forall; [constructor | exact Hs].
Qed.

Lemma remove_phrases_one_char (c : ascii) (blacklist : list text) (s : text) :
  [c] ∈ blacklist -> Forall (differs_ci c) (remove_phrases blacklist s).
Proof.
  revert s. induction blacklist as [|p bl IH]; intros s Hin.
  - inversion Hin.
  - apply elem_of_cons in Hin as [<-|Hin]; simpl.
    + apply remove_phrases_Forall, one_char_pass.
    + apply IH. exact Hin.
Qed.

Lemma isspace_lower_char (c : ascii) : isspace (lower_char c) = isspace c.
Proof. destruct c as [[] [] [] [] [] [] [] []]; reflexivity. Qed.

Lemma strip_Forall (P : ascii -> Prop) (s : text) :
  Forall P s -> Forall P (strip s).
Proof.
  intros H. unfold strip.
  destruct (lstrip_suffix s) as [pre Hpre].
  destruct (rstrip_prefix (lstrip s)) as [post Hpost].
  rewrite Hpre in H. apply Forall_app in H as [_ H].
  rewrite Hpost in H. apply Forall_app in H as [H _]. exact H.
Qed.

Lemma differs_ci_no_occurrence (c : ascii) (s : text) :
  Forall (differs_ci c) s -> occurs_ci [c] s = false.
Proof.
  intros H. unfold occurs_ci. destruct (occurs (lower [c]) (lower s)) eqn:E;
    [|reflexivity].
  exfalso. apply occurs_spec in E as (a & b & E).
  assert (Hin : lower_char c ∈ lower s).
  { rewrite E. apply elem_of_app. right. apply list_elem_of_here. }
  apply list_elem_of_fmap in Hin as (d & Hd & Hin).
  rewrite Forall_forall in H. apply (H d); [exact Hin | congruence].
Qed.

Lemma clean_text_one_char_phrase (text0 : option text) (blacklist : list text)
    (signature : option text) (c : ascii) :
  truthy signature = false -> [c] ∈ blacklist -> isspace c = false ->
  occurs_ci [c] (clean_text text0 blacklist signature) = false.
Proof.
  intros Hsig Hin Hc. apply differs_ci_no_occurrence. unfold clean_text.
  destruct text0 as [[|a t0]|]; try constructor.
  fold (remove_phrases blacklist
          (re_sub re_mention (Const []) (re_sub re_links (Const []) (a :: t0)))).
  assert (Hbody : Forall (differs_ci c)
            (strip (re_sub re_spaces (Const (txt " "))
               (remove_phrases blacklist
                  (re_sub re_mention (Const [])
                     (re_sub re_links (Const []) (a :: t0))))))).
  { apply strip_Forall, sub_from_Forall.
    - apply Forall_cons_2; [|apply Forall_nil_2].
      unfold differs_ci. intros Heq.
      assert (isspace (lower_char c) = true) by (rewrite <- Heq; reflexivity).
      rewrite isspace_lower_char in *. congruence.
    - apply remove_phrases_one_char. exact Hin. }
  destruct signature as [[|d sg]|]; [exact Hbody | discriminate | exact Hbody].
Qed.

(** C1, as stated, fails in three ways: removing a phrase joins the
    characters around it into a new occurrence of the phrase, or into a URL
    prefix, and the signature is appended as it is. *)
Lemma clean_text_sanitized_counterexample :
  clean_text (Some (txt "aabb")) [txt "ab"] None = txt "ab"
  /\ ~ sanitized (clean_text (Some (txt "aabb")) [txt "ab"] None) [txt "ab"]
  /\ clean_text (Some (txt "htxtp://a")) [txt "x"] None = txt "http://a"
  /\ ~ sanitized (clean_text (Some (txt "htxtp://a")) [txt "x"] None) [txt "x"]
  /\ ~ sanitized (clean_text (Some (txt "hi")) [] (Some (txt "http://x"))) [].
Proof.
  split; [reflexivity|]. split; [|split; [reflexivity|split]].
  - intros [H _]. specialize (H (txt "ab") (list_elem_of_here _ _)).
    vm_compute in H. discriminate.
  - intros (_ & H & _). vm_compute in H. discriminate.
  - intros (_ & H & _). vm_compute in H. discriminate.
Qed.

(** C1, amended: when no signature is given (or an empty one), the string
    returned by [clean_text] contains no [http://] and no [https://] if the
    blacklist is empty, and, for any blacklist, contains no case-insensitive
    occurrence of a blacklist phrase that is a single character other than
    white space. *)
Theorem clean_text_amended (text0 : option text) (blacklist : list text)
    (signature : option text) :
  truthy signature = false ->
  (blacklist = [] ->
     occurs (txt "http://") (clean_text text0 blacklist signature) = false
     /\ occurs (txt "https://") (clean_text text0 blacklist signature) = false)
  /\ (forall c, [c] ∈ blacklist -> isspace c = false ->
        occurs_ci [c] (clean_text text0 blacklist signature) = false).
Proof.
  intros Hsig. split.
  - intros ->. apply clean_text_no_url. exact Hsig.
  - intros c Hin Hc. apply clean_text_one_char_phrase; assumption.
Qed.

Lemma clean_text_amended_witness :
  occurs (txt "http://")
         (clean_text (Some (txt "see http://a.b/c and https://d now")) [] None)
  = false
  /\ occurs_ci (txt "x")
       (clean_text (Some (txt "htxtp://a X")) [txt "x"] None) = false.
Proof.
  split.
  - apply (clean_text_amended (Some (txt "see http://a.b/c and https://d now"))
             [] None eq_refl); reflexivity.
  - apply (clean_text_amended (Some (txt "htxtp://a X")) [txt "x"] None eq_refl);
      [apply list_elem_of_here | reflexivity].
Defined.

(** * Further properties *)

Lemma select_value_app (key : text) (r1 r2 : list (text * text)) :
  select_value key (r1 ++ r2)
  = match select_value key r1 with
    | Some v => Some v
    | None => select_value key r2
    end.
Proof.
  unfold select_value. induction r1 as [|row r1 IH]; simpl; [reflexivity|].
  case_bool_decide; [reflexivity | exact IH].
Qed.

Lemma select_value_filter_same (key : text) (rows : list (text * text)) :
  select_value key (filter (fun row => fst row <> key) rows) = None.
Proof.
  unfold select_value. induction rows as [|row rows IH]; [reflexivity|].
  rewrite filter_cons. case_decide as Hk; [|exact IH].
  simpl. rewrite bool_decide_eq_false_2; [exact IH | exact Hk].
Qed.

Lemma select_value_filter_other (key key' : text) (rows : list (text * text)) :
  key' <> key ->
  select_value key' (filter (fun row => fst row <> key) rows)
  = select_value key' rows.
Proof.
  intros Hne. unfold select_value.
  induction rows as [|row rows IH]; [reflexivity|].
  rewrite filter_cons. case_decide as Hk; simpl.
  - case_bool_decide; [reflexivity | exact IH].
  - rewrite bool_decide_eq_false_2; [exact IH|]. congruence.
Qed.

Lemma insert_or_replace_keys (k v : text) (rows : list (text * text)) :
  NoDup (map fst rows) -> NoDup (map fst (insert_or_replace k v rows)).
Proof.
  intros Hnd. unfold insert_or_replace. rewrite map_app. simpl.
  apply NoDup_app. split; [|split].
  - induction rows as [|row rows IH]; [constructor|].
    simpl in Hnd. apply NoDup_cons in Hnd as [Hrow Hnd].
    rewrite filter_cons. case_decide; [|apply IH; exact Hnd].
    simpl. apply NoDup_cons. split; [|apply IH; exact Hnd].
    intros Hin. apply Hrow.
    apply list_elem_of_fmap in Hin as (row' & Heq & Hin).
    apply list_elem_of_filter in Hin as [_ Hin].
    apply list_elem_of_fmap. eauto.
  - intros x Hx Hx'. apply list_elem_of_singleton in Hx'. subst x.
    apply list_elem_of_fmap in Hx as (row & Heq & Hin).
    apply list_elem_of_filter in Hin as [Hk _]. congruence.
  - apply NoDup_singleton.
Qed.

(** X1: once the tables are made, [get_config] after [set_config] of a key
    returns the value set, the other keys answer as before, and a second
    [set_config] of the key replaces the value; on a file without tables
    both functions raise [OperationalError]. *)
Theorem db_config_set_then_get (key value key' : text) (d : database) :
  let d1 := fst (db_set_config key value (init_db d)) in
  db_get_config key d1 = Return (Some value)
  /\ (key' <> key -> db_get_config key' d1 = db_get_config key' (init_db d))
  /\ (forall v2, db_get_config key (fst (db_set_config key v2 d1)) = Return (Some v2))
  /\ db_set_config key value None = (None, Raise OperationalError)
  /\ db_get_config key None = Raise OperationalError.
Proof.
  intros d1. subst d1. destruct d as [t|]; simpl; repeat apply conj;
    try reflexivity;
    try (intros Hne; f_equal; unfold insert_or_replace;
         rewrite select_value_app, select_value_filter_other by exact Hne;
         destruct (select_value key' _) eqn:E; [reflexivity|];
         unfold select_value; simpl; rewrite bool_decide_eq_false_2 by congruence;
         reflexivity);
    try (intros v2); f_equal; unfold insert_or_replace;
    rewrite select_value_app, select_value_filter_same;
    unfold select_value; simpl; rewrite bool_decide_eq_true_2; reflexivity.
Qed.

(** X2: whatever the series of [set_config] on a new database, the config
    table never holds a key twice. *)
Theorem db_config_keys_unique (kvs : list (text * text)) :
  NoDup (map fst (stored_config
                    (fold_left (fun db kv => fst (db_set_config (fst kv) (snd kv) db))
                               kvs (init_db None)))).
Proof.
  assert (H : forall db, NoDup (map fst (stored_config db)) ->
              NoDup (map fst (stored_config
                (fold_left (fun db kv => fst (db_set_config (fst kv) (snd kv) db))
                           kvs db)))).
  { induction kvs as [|kv kvs IH]; intros db Hdb; [exact Hdb|].
    simpl. apply IH. destruct db as [t|]; simpl; [|constructor].
    apply insert_or_replace_keys. exact Hdb. }
  apply H. simpl. constructor.
Qed.

Lemma insert_or_ignore_elem (x y : text) (rows : list text) :
  y ∈ insert_or_ignore x rows <-> y = x \/ y ∈ rows.
Proof.
  unfold insert_or_ignore. case_bool_decide as Hin.
  - split; [auto|]. intros [->|H]; assumption.
  - rewrite elem_of_app, list_elem_of_singleton. tauto.
Qed.

(** X3: on a database whose tables are made, [add_blacklist] does not
    raise; afterwards [get_blacklist] returns the lower-case form of the
    phrase and everything it returned before; it returns the same list when
    the phrase was stored already, and one more entry otherwise. *)
Theorem add_blacklist_keeps_and_adds (phrase : text) (d : database) :
  let d0 := init_db d in
  let d1 := fst (add_blacklist phrase d0) in
  snd (add_blacklist phrase d0) = Return tt
  /\ exists l0 l1,
       get_blacklist d0 = Return l0
       /\ get_blacklist d1 = Return l1
       /\ lower phrase ∈ l1
       /\ (forall s, s ∈ l0 -> s ∈ l1)
       /\ (phrase ∈ stored_blacklist d0 -> l1 = l0)
       /\ (phrase ∉ stored_blacklist d0 -> l1 = l0 ++ [lower phrase]).
Proof.
  intros d0 d1. subst d0 d1.
  assert (H : exists t, init_db d = Some t) by (destruct d; simpl; eauto).
  destruct H as [t ->]. simpl. split; [reflexivity|].
  exists (map lower (blacklist t)),
         (map lower (insert_or_ignore phrase (blacklist t))).
  split; [reflexivity|]. split; [reflexivity|]. repeat apply conj.
  - apply list_elem_of_fmap. exists phrase. split; [reflexivity|].
    apply insert_or_ignore_elem. left. reflexivity.
  - intros s Hs. apply list_elem_of_fmap in Hs as (y & -> & Hy).
    apply list_elem_of_fmap. exists y. split; [reflexivity|].
    apply insert_or_ignore_elem. right. exact Hy.
  - intros Hin. unfold insert_or_ignore.
    rewrite bool_decide_eq_true_2; [reflexivity | exact Hin].
  - intros Hnin. unfold insert_or_ignore.
    rewrite bool_decide_eq_false_2; [|exact Hnin].
    rewrite map_app. reflexivity.
Qed.

(** [init_db] keeps what is stored. *)
Lemma init_db_keeps_rows (d : database) :
  init_db (init_db d) = init_db d
  /\ stored_blacklist (init_db d) = stored_blacklist d
  /\ stored_donors (init_db d) = stored_donors d
  /\ stored_config (init_db d) = stored_config d
  /\ (d = None ->
      get_blacklist (init_db d) = Return [] /\ get_donors (init_db d) = Return []).
Proof.
  destruct d as [t|]; repeat split; intros; try discriminate; reflexivity.
Qed.

Lemma fold_add_donor_rows (l : list text) (db : database) :
  db <> None ->
  exists t, fold_left (fun db u => fst (add_donor u db)) l db = Some t
            /\ (forall x, x ∈ donors t <-> x ∈ stored_donors db \/ x ∈ l)
            /\ (NoDup (stored_donors db) -> NoDup (donors t)).
Proof.
  revert db. induction l as [|u l IH]; intros db Hdb.
  - destruct db as [t|]; [|congruence]. exists t. simpl.
    split; [reflexivity|]. split; [|auto].
    intros x. split; [auto|]. intros [H|H]; [exact H | inversion H].
  - destruct db as [t|]; [|congruence]. simpl.
    edestruct (IH (Some (mkTables (insert_or_ignore u (donors t)) (blacklist t)
                                  (config_rows t)))) as (t' & Hfold & Hin & Hnd);
      [discriminate|].
    exists t'. split; [exact Hfold|]. split.
    + intros x. rewrite Hin. simpl. rewrite insert_or_ignore_elem, elem_of_cons.
      tauto.
    + intros H. apply Hnd. simpl. apply insert_or_ignore_NoDup. exact H.
Qed.

(** X4: after [init_db] on a new file and any series of [add_donor],
    [get_donors] returns exactly the usernames added, each once. *)
Theorem get_donors_after_adds (l : list text) :
  exists r,
    get_donors (fold_left (fun db u => fst (add_donor u db)) l (init_db None))
    = Return r
    /\ NoDup r
    /\ (forall x, x ∈ r <-> x ∈ l).
Proof.
  destruct (fold_add_donor_rows l (init_db None)) as (t & Hfold & Hin & Hnd);
    [discriminate|].
  exists (donors t). rewrite Hfold. split; [reflexivity|]. split.
  - apply Hnd. simpl. constructor.
  - intros x. rewrite Hin. simpl. split; [intros [H|H]; [inversion H | exact H] | auto].
Qed.

Lemma mapM_as_str (l : list text) : mapM as_str (map JStr l) = Some l.
Proof.
  induction l as [|x l IH]; [reflexivity|].
  simpl. rewrite IH. reflexivity.
Qed.

Lemma existsb_unhashable_strs (l : list text) :
  existsb unhashable (map JStr l) = false.
Proof. induction l as [|x l IH]; [reflexivity | exact IH]. Qed.

Lemma clean_sources_fixed (c : Config) :
  (forall t, target_channel c = Some t -> t <> [] -> t ∉ channels c) ->
  clean_sources c = c.
Proof.
  intros H. unfold clean_sources.
  destruct (target_channel c) as [[|a t]|] eqn:E; simpl; try reflexivity.
  rewrite bool_decide_eq_false_2; [reflexivity|].
  apply H; [reflexivity | discriminate].
Qed.

Lemma list_remove_subset (x y : text) (l : list text) :
  y ∈ list_remove x l -> y ∈ l.
Proof.
  induction l as [|z l IH]; simpl; [auto|].
  destruct (decide (x = z)); rewrite !elem_of_cons; [auto|].
  intros [->|H]; auto.
Qed.

Lemma list_remove_NoDup (x : text) (l : list text) :
  NoDup l -> NoDup (list_remove x l).
Proof.
  induction 1 as [|z l Hz Hnd IH]; simpl; [constructor|].
  destruct (decide (x = z)); [exact Hnd|].
  constructor; [|exact IH]. intros Hin. apply Hz.
  eapply list_remove_subset. exact Hin.
Qed.

Lemma clean_sources_frame (c : Config) :
  sites (clean_sources c) = sites c
  /\ keywords (clean_sources c) = keywords c
  /\ target_channel (clean_sources c) = target_channel c
  /\ sent_hashes (clean_sources c) = sent_hashes c
  /\ (forall x, x ∈ channels (clean_sources c) -> x ∈ channels c).
Proof.
  split; [|split; [|split; [apply target_clean_sources|split;
    [apply sent_hashes_clean_sources|]]]];
    unfold clean_sources;
    destruct (truthy (target_channel c)); try reflexivity; try (intros x Hx; exact Hx);
    destruct (target_channel c); try reflexivity; try (intros x Hx; exact Hx);
    case_bool_decide; try reflexivity; try (intros x Hx; exact Hx).
  simpl. intros x Hx. eapply list_remove_subset. exact Hx.
Qed.

Lemma clean_sources_NoDup (c : Config) :
  NoDup (channels c) -> NoDup (channels (clean_sources c)).
Proof.
  intros H. unfold clean_sources.
  destruct (truthy (target_channel c)); [|exact H].
  destruct (target_channel c); [|exact H].
  case_bool_decide; simpl; [apply list_remove_NoDup|]; exact H.
Qed.

Lemma clean_sources_tidy (c : Config) :
  NoDup (channels c) -> NoDup (sites c) -> sources_tidy (clean_sources c).
Proof.
  intros Hc Hs. destruct (clean_sources_frame c) as (Hsites & _ & _ & _ & _).
  split; [apply clean_sources_NoDup; exact Hc|].
  split; [rewrite Hsites; exact Hs|].
  intros t Ht Hne. rewrite target_clean_sources in Ht.
  apply clean_sources_excludes; assumption.
Qed.

(** X5: [load] on the file written by [save] returns normally, whatever the
    configuration it starts from: it yields the saved configuration with
    [clean_sources] applied once more, which is the saved configuration
    itself when the channel list had no duplicate. *)
Theorem save_then_load (self c : Config) :
  load self (snd (save c)) = Return (clean_sources (fst (save c)))
  /\ (NoDup (channels c) -> load self (snd (save c)) = Return (fst (save c))).
Proof.
  assert (H : load self (snd (save c)) = Return (clean_sources (fst (save c)))).
  { unfold save. simpl fst. simpl snd.
    destruct (clean_sources c) as [chs sts kws tgt hs]. unfold load, dump.
    cbn [channels sites keywords target_channel sent_hashes].
    change (obj_get (txt "sent_hashes") _)
      with (Some (json_of_list (elements hs))).
    change (obj_get (txt "keywords") _) with (Some (json_of_list kws)).
    change (obj_get (txt "target_channel") _)
      with (Some (match tgt with Some t => JStr t | None => JNull end)).
    change (obj_get (txt "sources") _)
      with (Some (JObj [ (txt "channels", json_of_list chs);
                         (txt "sites", json_of_list sts) ])).
    change (set_of_json _) with (set_of_json (JArr (map JStr (elements hs)))).
    cbn [set_of_json].
    rewrite existsb_unhashable_strs, mapM_as_str.
    unfold sources_of_json.
    change (obj_get (txt "channels") _) with (Some (json_of_list chs)).
    change (obj_get (txt "sites") _) with (Some (json_of_list sts)).
    unfold as_str_list, json_of_list, list_of_json, as_str_list.
    rewrite !mapM_as_str.
    rewrite list_to_set_elements_L.
    destruct tgt; reflexivity. }
  split; [exact H|]. intros Hnd. rewrite H. f_equal.
  apply clean_sources_fixed. unfold save. simpl.
  intros t Ht Hne. rewrite target_clean_sources in Ht.
  apply clean_sources_excludes; assumption.
Qed.

Section SourceInvariants.

Variable md5_hexdigest : text -> text.
Variable media_repr : media -> text.

Lemma tidy_do_save (st : state) (c : Config) :
  NoDup (channels c) -> NoDup (sites c) ->
  sources_tidy (config (do_save (update_config st c))).
Proof. intros Hc Hs. apply clean_sources_tidy; assumption. Qed.

Lemma NoDup_snoc (x : text) (l : list text) :
  NoDup l -> x ∉ l -> NoDup (l ++ [x]).
Proof.
  intros Hnd Hx. apply NoDup_app. split; [exact Hnd|]. split.
  - intros y Hy Hy'. apply list_elem_of_singleton in Hy'. subst y. contradiction.
  - apply NoDup_singleton.
Qed.

Lemma handle_text_tidy (st : state) (m : incoming) (ok : bool) :
  sources_tidy (config st) -> sources_tidy (config (handle_text st m ok)).
Proof.
  intros (Hc & Hs & Ht). assert (Htidy : sources_tidy (config st)) by (split; auto).
  unfold handle_text. destruct m as [|t]; [exact Htidy|].
  repeat case_match; try exact Htidy;
    try (apply tidy_do_save; simpl; auto; fail).
  - apply tidy_do_save; simpl; [exact Hc|].
    apply NoDup_snoc; [exact Hs|].
    match goal with H : bool_decide _ = false |- _ =>
      apply bool_decide_eq_false in H; exact H end.
  - apply tidy_do_save; simpl; [|exact Hs].
    apply NoDup_snoc; [exact Hc|].
    match goal with H : bool_decide (_ ∈ _) = false |- _ =>
      apply bool_decide_eq_false in H; exact H end.
  - apply tidy_do_save; simpl; [|exact Hs].
    apply NoDup_snoc; [exact Hc|].
    match goal with H : bool_decide (_ ∈ _) = false |- _ =>
      apply bool_decide_eq_false in H; exact H end.
Qed.

Lemma item_config_site (st : state) (r : fetch_result) (o : send_outcome) :
  config (fst (site_item md5_hexdigest st r o)) = config st
  \/ exists h, config (fst (site_item md5_hexdigest st r o))
               = clean_sources (add_hash (config st) h).
Proof.
  unfold site_item. repeat case_match; simpl; auto.
  right. eexists. reflexivity.
Qed.

Lemma item_config_channel (st : state) (msg : message) (o1 o2 : send_outcome) :
  config (fst (channel_item md5_hexdigest media_repr st msg o1 o2)) = config st
  \/ exists h, config (fst (channel_item md5_hexdigest media_repr st msg o1 o2))
               = clean_sources (add_hash (config st) h).
Proof.
  unfold channel_item, channel_body. repeat case_match; simpl; auto.
  right. eexists. reflexivity.
Qed.

Lemma confirm_remove_config (st : state) (h : text) :
  config (confirm_remove_handler md5_hexdigest st h) = config st
  \/ (exists x, config (confirm_remove_handler md5_hexdigest st h)
                = clean_sources (clean_sources
                    (with_channels (config st) (list_remove x (channels (config st))))))
  \/ (exists x, config (confirm_remove_handler md5_hexdigest st h)
                = clean_sources (clean_sources
                    (with_sites (config st) (list_remove x (sites (config st)))))).
Proof.
  unfold confirm_remove_handler. repeat case_match; simpl; eauto.
Qed.

Lemma step_config_cases (st st' : state) :
  step md5_hexdigest media_repr st st' ->
  config st' = config st
  \/ (exists m ok, config st' = config (handle_text st m ok))
  \/ (exists c, config st' = clean_sources c
                /\ (forall x, x ∈ channels c -> x ∈ channels (config st))
                /\ (forall x, x ∈ sites c -> x ∈ sites (config st))
                /\ (NoDup (channels (config st)) -> NoDup (channels c))
                /\ (NoDup (sites (config st)) -> NoDup (sites c))
                /\ sent_hashes (config st) ⊆ sent_hashes c).
Proof.
  intros Hstep. destruct Hstep.
  - left. unfold start_parsing_handler. repeat case_match; reflexivity.
  - left. unfold stop_parsing_handler. repeat case_match; reflexivity.
  - left. reflexivity.
  - left. reflexivity.
  - left. reflexivity.
  - right. right. exists (config st). simpl. repeat split; auto.
  - right. left. eauto.
  - destruct (confirm_remove_config st h) as [H | [[x H] | [x H]]];
      [left; exact H | right; right | right; right].
    + exists (clean_sources (with_channels (config st)
                               (list_remove x (channels (config st))))).
      split; [exact H|].
      destruct (clean_sources_frame (with_channels (config st)
                  (list_remove x (channels (config st)))))
        as (Hs & _ & _ & Hh & Hsub).
      rewrite Hs, Hh. simpl. repeat split; auto.
      * intros y Hy. apply Hsub in Hy. simpl in Hy.
        eapply list_remove_subset. exact Hy.
      * intros Hnd. apply clean_sources_NoDup. simpl.
        apply list_remove_NoDup. exact Hnd.
    + exists (clean_sources (with_sites (config st)
                               (list_remove x (sites (config st))))).
      split; [exact H|].
      destruct (clean_sources_frame (with_sites (config st)
                  (list_remove x (sites (config st)))))
        as (Hs & _ & _ & Hh & Hsub).
      rewrite Hs, Hh. simpl. repeat split; auto.
      * intros y Hy. eapply list_remove_subset. exact Hy.
      * intros Hnd. apply clean_sources_NoDup. simpl. exact Hnd.
      * intros Hnd. apply list_remove_NoDup. exact Hnd.
  - destruct (item_config_site st r o) as [H | [h H]]; [left; exact H|].
    right. right. exists (add_hash (config st) h). split; [exact H|].
    simpl. repeat split; auto. apply union_subseteq_r.
  - destruct (item_config_channel st msg o1 o2) as [H | [h H]]; [left; exact H|].
    right. right. exists (add_hash (config st) h). split; [exact H|].
    simpl. repeat split; auto. apply union_subseteq_r.
Qed.

Lemma handle_text_ledger (st : state) (m : incoming) (ok : bool) :
  sent_hashes (config (handle_text st m ok)) = sent_hashes (config st).
Proof.
  unfold handle_text. destruct m as [|t]; [reflexivity|].
  repeat case_match; simpl; rewrite ?sent_hashes_clean_sources; reflexivity.
Qed.

Lemma shaped_clean_sources (c : Config) :
  sources_shaped c -> sources_shaped (clean_sources c).
Proof.
  intros [Hc Hs]. destruct (clean_sources_frame c) as (Hsites & _ & _ & _ & Hsub).
  split; [|rewrite Hsites; exact Hs].
  rewrite Forall_forall in *. intros x Hx. apply Hc, Hsub, Hx.
Qed.

Lemma handle_text_shaped (st : state) (m : incoming) (ok : bool) :
  sources_shaped (config st) -> sources_shaped (config (handle_text st m ok)).
Proof.
  intros Hsh. pose proof Hsh as [Hc Hs].
  unfold handle_text. destruct m as [|t]; [exact Hsh|].
  destruct (awaiting_target_channel st).
  { repeat case_match; try exact Hsh.
    apply shaped_clean_sources. split; assumption. }
  destruct (awaiting_source st).
  2:{ repeat case_match; try exact Hsh; apply shaped_clean_sources;
        split; assumption. }
  destruct (starts_with (txt "http://") (strip t)
            || starts_with (txt "https://") (strip t)) eqn:Hhttp.
  { case_bool_decide; [exact Hsh|]. simpl. apply shaped_clean_sources.
    split; [exact Hc|]. simpl. apply Forall_app. split; [exact Hs|].
    apply Forall_cons_2; [exact Hhttp | apply Forall_nil_2]. }
  destruct (starts_with (txt "@") (strip t)
            || starts_with (txt "t.me/") (strip t)) eqn:Hat; [|exact Hsh].
  destruct (starts_with (txt "t.me/") (strip t)) eqn:Htme;
    repeat case_bool_decide; try exact Hsh;
    (destruct ok; [|exact Hsh]); apply shaped_clean_sources;
    (split; [|exact Hs]); cbn [config update_config set_config with_channels channels];
    (apply Forall_app; split; [exact Hc|]);
    (apply Forall_cons_2; [|apply Forall_nil_2]).
  - reflexivity.
  - rewrite orb_false_r in Hat. exact Hat.
Qed.

(** X6: along any run of handlers and scans, the source lists stay free of
    duplicates and the destination stays out of the channels, if that holds
    at the start. *)
Theorem run_keeps_sources_tidy (st st' : state) :
  rtc (step md5_hexdigest media_repr) st st' ->
  sources_tidy (config st) -> sources_tidy (config st').
Proof.
  induction 1 as [st | st st1 st2 Hstep _ IH]; [auto|].
  intros Htidy. apply IH.
  destruct (step_config_cases st st1 Hstep)
    as [-> | [(m & ok & ->) | (c & -> & _ & _ & Hc & Hs & _)]].
  - exact Htidy.
  - apply handle_text_tidy. exact Htidy.
  - destruct Htidy as (H1 & H2 & _). apply clean_sources_tidy; auto.
Qed.

(** X7: along any run of handlers and scans, every channel stays a string
    that starts with [@] and every site one that starts with [http://] or
    [https://], if that holds at the start. *)
Theorem run_keeps_sources_shaped (st st' : state) :
  rtc (step md5_hexdigest media_repr) st st' ->
  sources_shaped (config st) -> sources_shaped (config st').
Proof.
  induction 1 as [st | st st1 st2 Hstep _ IH]; [auto|].
  intros Hsh. apply IH.
  destruct (step_config_cases st st1 Hstep)
    as [-> | [(m & ok & ->) | (c & -> & Hcs & Hss & _)]].
  - exact Hsh.
  - apply handle_text_shaped. exact Hsh.
  - apply shaped_clean_sources. destruct Hsh as [H1 H2].
    split; rewrite Forall_forall in *; auto.
Qed.

(** X8: along any run of handlers and scans, [sent_hashes] only grows: no
    step removes a fingerprint. *)
Theorem run_grows_ledger (st st' : state) :
  rtc (step md5_hexdigest media_repr) st st' ->
  sent_hashes (config st) ⊆ sent_hashes (config st').
Proof.
  induction 1 as [st | st st1 st2 Hstep _ IH]; [reflexivity|].
  etransitivity; [|exact IH].
  destruct (step_config_cases st st1 Hstep)
    as [-> | [(m & ok & ->) | (c & -> & _ & _ & _ & _ & Hsub)]].
  - reflexivity.
  - rewrite handle_text_ledger. reflexivity.
  - rewrite sent_hashes_clean_sources. exact Hsub.
Qed.

End SourceInvariants.

Section ScanFacts.

Variable md5_hexdigest : text -> text.
Variable media_repr : media -> text.

#[local] Abbreviation site_item := (site_item md5_hexdigest).
#[local] Abbreviation channel_item := (channel_item md5_hexdigest media_repr).
#[local] Abbreviation fingerprint := (fingerprint md5_hexdigest media_repr).
#[local] Abbreviation step := (step md5_hexdigest media_repr).
#[local] Abbreviation scan_step := (scan_step md5_hexdigest media_repr).
#[local] Abbreviation channel_body := (channel_body md5_hexdigest media_repr).
#[local] Abbreviation scan_messages := (scan_messages md5_hexdigest media_repr).
#[local] Abbreviation channels_from := (channels_from md5_hexdigest media_repr).

Lemma keywords_record_sent (st : state) (h : text) :
  keywords (config (record_sent st h)) = keywords (config st).
Proof.
  unfold record_sent. rewrite config_do_save.
  unfold clean_sources. repeat case_match; reflexivity.
Qed.

(** X9: once the scan of an item was answered with success, the next scan
    of the same item makes no call, whatever the transport would answer;
    for a site and for a channel message.  For an eligible item the first
    scan made exactly one call. *)
Theorem delivered_item_not_published_again (st : state) (status : Z)
    (text0 : text) (msg : message) (o o1 o2 o2' : send_outcome) :
  calls (snd (site_item (fst (site_item st (Response status text0) Sent))
                        (Response status text0) o)) = []
  /\ calls (snd (channel_item (fst (channel_item st msg Sent o2)) msg o1 o2')) = []
  /\ (status = 200%Z -> text0 <> [] ->
      get_message_hash md5_hexdigest (slice_to 1000 text0)
        ∉ sent_hashes (config st) ->
      keyword_gate (keywords (config st)) (Some text0) = true ->
      calls (snd (site_item st (Response status text0) Sent))
      = [send_message (target_channel (config st))
                      (site_message (slice_to 1000 text0))])
  /\ (truthy (msg_message msg) = true \/ msg_media msg <> None ->
      truthy (msg_text msg) = true ->
      fingerprint msg ∉ sent_hashes (config st) ->
      keyword_gate (keywords (config st)) (Some (content_of msg)) = true ->
      calls (snd (channel_item st msg Sent o2))
      = [primary_call (target_channel (config st)) msg (content_of msg)]).
Proof.
  repeat apply conj.
  3:{ intros Hs Ht Hnin Hg.
      destruct (site_item_cases md5_hexdigest st status text0 Sent)
        as [(_ & _ & _ & Hc) | (_ & _ & _ & _ & H)]; [|rewrite H; reflexivity].
      destruct Hc as [Hc | [Hc | [Hc | Hc]]]; [contradiction.. | congruence]. }
  3:{ intros Hbody Htext Hnin Hg.
      destruct (channel_item_cases md5_hexdigest media_repr st msg Sent o2)
        as [[_ Hc] | (_ & _ & _ & _ & H)]; [|rewrite H; reflexivity].
      destruct Hc as [[Hm1 Hm2] | [Hc | [Hc | Hc]]];
        [|congruence | contradiction | congruence].
      destruct Hbody; congruence. }
  - destruct (site_item_cases md5_hexdigest st status text0 Sent)
      as [(Hst & _ & _ & Hwhy) | (_ & _ & _ & _ & H)].
    + rewrite Hst.
      destruct (site_item_cases md5_hexdigest st status text0 o)
        as [(_ & Hc & _) | (H1 & H2 & H3 & H4 & _)]; [exact Hc|].
      destruct Hwhy as [? | [? | [? | ?]]]; [contradiction.. | congruence].
    + rewrite H. simpl fst.
      destruct (site_item_cases md5_hexdigest
                  (record_sent st (get_message_hash md5_hexdigest (slice_to 1000 text0)))
                  status text0 o)
        as [(_ & Hc & _) | (_ & _ & Hnin & _)]; [exact Hc|].
      exfalso. apply Hnin. rewrite sent_hashes_record_sent.
      apply elem_of_union_l, elem_of_singleton. reflexivity.
  - destruct (channel_item_cases md5_hexdigest media_repr st msg Sent o2)
      as [[Hst Hwhy] | (_ & _ & _ & _ & H)].
    + rewrite Hst. simpl fst.
      destruct (channel_item_cases md5_hexdigest media_repr st msg o1 o2')
        as [[Hc _] | (Hb & Ht & H1 & H2 & _)]; [rewrite Hc; reflexivity|].
      destruct Hwhy as [[Hm1 Hm2] | [? | [? | ?]]];
        [|congruence | contradiction | congruence].
      destruct Hb; congruence.
    + rewrite H. simpl fst.
      destruct (channel_item_cases md5_hexdigest media_repr
                  (record_sent st (fingerprint msg)) msg o1 o2')
        as [[Hc _] | (_ & _ & Hnin & _)]; [rewrite Hc; reflexivity|].
      exfalso. apply Hnin. rewrite sent_hashes_record_sent.
      apply elem_of_union_l, elem_of_singleton. reflexivity.
Qed.





Lemma calls_app (a b : list event) : calls (a ++ b) = calls a ++ calls b.
Proof. unfold calls. apply flat_map_app. Qed.

Lemma scan_frame_refl (st : state) : scan_frame st st.
Proof. unfold scan_frame. repeat split; auto. Qed.

Lemma scan_frame_trans (a b c : state) :
  scan_frame a b -> scan_frame b c -> scan_frame a c.
Proof.
  unfold scan_frame.
  intros (H1 & H2 & H3 & H4 & H5 & H6 & H7 & H8 & H9)
         (K1 & K2 & K3 & K4 & K5 & K6 & K7 & K8 & K9).
  repeat split; try congruence; auto.
  etransitivity; eassumption.
Qed.

Lemma scan_frame_record_sent (st : state) (h : text) :
  scan_frame st (record_sent st h).
Proof.
  unfold scan_frame, record_sent, do_save, save. cbn [config set_config fst snd parsing_active parsing_task awaiting_target_channel awaiting_source].
  destruct (clean_sources_frame (add_hash (config st) h))
    as (Hs & Hk & Ht & Hh & Hsub).
  rewrite Hs, Hk, Ht, Hh. simpl. repeat split; auto.
  apply union_subseteq_r.
Qed.


Lemma channel_item_frame (st : state) (msg : message) (o1 o2 : send_outcome) :
  scan_frame st (fst (channel_item st msg o1 o2)).
Proof.
  unfold channel_item, channel_body. repeat case_match; simpl;
    try apply scan_frame_refl; apply scan_frame_record_sent.
Qed.

(** The loop over the messages, one message on. *)
Lemma scan_messages_cons (st : state) (msg : message) (o1 o2 : send_outcome)
    (items : list (message * send_outcome * send_outcome)) :
  parsing_active st = true ->
  scan_messages st ((msg, o1, o2) :: items)
  = match snd (channel_body st msg o1 o2) with
    | Raised _ =>
        (fst (channel_item st msg o1 o2), snd (channel_item st msg o1 o2),
         BodyRaised)
    | NextMessage =>
        (fst (fst (scan_messages (fst (channel_item st msg o1 o2)) items)),
         snd (channel_item st msg o1 o2)
         ++ snd (fst (scan_messages (fst (channel_item st msg o1 o2)) items)),
         snd (scan_messages (fst (channel_item st msg o1 o2)) items))
    end.
Proof.
  intros Ha. simpl. rewrite Ha. cbn [negb].
  unfold channel_item.
  destruct (channel_body st msg o1 o2) as [[st1 ev1] [|e]]; cbn [fst snd].
  - destruct (scan_messages st1 items) as [[st2 ev2] how]. reflexivity.
  - reflexivity.
Qed.

Lemma scan_messages_frame (st : state)
    (items : list (message * send_outcome * send_outcome)) :
  scan_frame st (fst (fst (scan_messages st items)))
  /\ rtc scan_step st (fst (fst (scan_messages st items))).
Proof.
  revert st. induction items as [|[[msg o1] o2] items IH]; intros st.
  - split; [apply scan_frame_refl | reflexivity].
  - destruct (parsing_active st) eqn:Ha.
    2:{ simpl. rewrite Ha.
        split; [apply scan_frame_refl | reflexivity]. }
    rewrite (scan_messages_cons st msg o1 o2 items Ha).
    pose proof (channel_item_frame st msg o1 o2) as Hf.
    pose proof (scan_channel md5_hexdigest media_repr st msg o1 o2) as Hs.
    destruct (snd (channel_body st msg o1 o2)); cbn [fst snd].
    + destruct (IH (fst (channel_item st msg o1 o2))) as [IHf IHs]. split.
      * eapply scan_frame_trans; eassumption.
      * eapply rtc_l; eassumption.
    + split; [exact Hf | apply rtc_once; exact Hs].
Qed.



(** The item scans are among the steps of the running program. *)
Lemma scan_steps_are_steps (st st' : state) :
  rtc scan_step st st' -> rtc step st st'.
Proof.
  induction 1 as [|a b c Hab _ IH]; [reflexivity|].
  eapply rtc_l; [|exact IH].
  destruct Hab; [apply step_site | apply step_channel].
Qed.



Lemma all_to_app (tgt : option text) (a b : list event) :
  all_to tgt a -> all_to tgt b -> all_to tgt (a ++ b).
Proof.
  unfold all_to. rewrite calls_app. intros. apply Forall_app. split; assumption.
Qed.


Lemma channel_item_to (st : state) (msg : message) (o1 o2 : send_outcome) :
  all_to (target_channel (config st)) (snd (channel_item st msg o1 o2)).
Proof.
  unfold all_to.
  destruct (channel_item_cases md5_hexdigest media_repr st msg o1 o2)
    as [[Hc _] | (_ & _ & _ & _ & H)]; [rewrite Hc; constructor|].
  assert (Hp : call_entity (primary_call (target_channel (config st)) msg
                              (content_of msg)) = target_channel (config st)).
  { unfold primary_call. destruct (msg_media msg) as [[p|d|k]|]; reflexivity. }
  destruct o1; rewrite H; cbn [snd calls flat_map app];
    try (apply Forall_cons_2; [exact Hp | apply Forall_nil_2]).
  apply Forall_cons_2; [exact Hp|].
  change (Forall (fun c => call_entity c = target_channel (config st))
                 (calls (fallback st (content_of msg) o2))).
  rewrite calls_fallback. destruct (content_of msg); repeat constructor.
Qed.

Lemma scan_messages_to (st : state)
    (items : list (message * send_outcome * send_outcome)) :
  all_to (target_channel (config st)) (snd (fst (scan_messages st items)))
  /\ (parsing_active st = false ->
      fst (fst (scan_messages st items)) = st
      /\ calls (snd (fst (scan_messages st items))) = []).
Proof.
  revert st. induction items as [|[[msg o1] o2] items IH]; intros st.
  - split; [constructor | auto].
  - destruct (parsing_active st) eqn:Ha.
    2:{ simpl. rewrite Ha.
        split; [constructor | auto]. }
    split; [|discriminate].
    rewrite (scan_messages_cons st msg o1 o2 items Ha).
    pose proof (channel_item_to st msg o1 o2) as Ht.
    pose proof (channel_item_frame st msg o1 o2) as (_ & Htgt & _).
    destruct (snd (channel_body st msg o1 o2)); cbn [fst snd]; [|exact Ht].
    destruct (IH (fst (channel_item st msg o1 o2))) as [IHt _].
    apply all_to_app; [exact Ht|]. rewrite <- Htgt. exact IHt.
Qed.

Lemma all_to_nocalls (tgt : option text) (ev : list event) :
  calls ev = [] -> all_to tgt ev.
Proof. unfold all_to. intros ->. constructor. Qed.

Lemma channels_from_to (fuel i : nat) (env : text -> feed) (st : state) :
  all_to (target_channel (config st)) (snd (channels_from fuel i env st))
  /\ (parsing_active st = false ->
      fst (channels_from fuel i env st) = st
      /\ calls (snd (channels_from fuel i env st)) = []).
Proof.
  revert i st. induction fuel as [|fuel IH]; intros i st; simpl.
  - split; [constructor | auto].
  - destruct (channels (config st) !! i) as [channel|];
      [|split; [constructor | auto]].
    destruct (env channel) as [items e].
    pose proof (scan_messages_to st items) as [Ht Hoff].
    pose proof (scan_messages_frame st items) as [(_ & Htgt & _) _].
    destruct (scan_messages st items) as [[st1 ev1] how].
    simpl in Ht, Hoff, Htgt.
    destruct (IH (S i) st1) as [IHt IHoff].
    destruct (channels_from fuel (S i) env st1) as [st2 ev2].
    simpl in IHt, IHoff.
    destruct how; simpl.
    + split.
      * apply (all_to_app _ [LogInfo]); [constructor|].
        apply all_to_app; [exact Ht|]. apply all_to_app.
        -- apply all_to_nocalls. destruct e; reflexivity.
        -- rewrite <- Htgt. exact IHt.
      * intros Ha. destruct (Hoff Ha) as [-> Hc].
        destruct (IHoff Ha) as [-> Hc2]. split; [reflexivity|].
        change (calls (ev1 ++ end_events e ++ ev2) = []).
        rewrite !calls_app, Hc, Hc2. destruct e; reflexivity.
    + split.
      * apply (all_to_app _ [LogInfo] ev1); [constructor | exact Ht].
      * intros Ha. destruct (Hoff Ha) as [-> Hc]. split; [reflexivity | exact Hc].
    + split.
      * apply (all_to_app _ [LogInfo]); [constructor|].
        apply all_to_app; [exact Ht|].
        apply (all_to_app _ [LogError]); [constructor|].
        rewrite <- Htgt. exact IHt.
      * intros Ha. destruct (Hoff Ha) as [-> Hc].
        destruct (IHoff Ha) as [-> Hc2]. split; [reflexivity|].
        change (calls (ev1 ++ [LogError] ++ ev2) = []).
        rewrite !calls_app, Hc, Hc2. reflexivity.
Qed.



(** X13: when [parsing_active] is false, a pass of [parse_channels] makes no
    call and leaves the state as it was. *)
Theorem stopped_channel_pass_does_nothing (envc : text -> feed) (st : state) :
  parsing_active st = false ->
  fst (parse_channels md5_hexdigest media_repr envc st) = st
  /\ calls (snd (parse_channels md5_hexdigest media_repr envc st)) = [].
Proof.
  intros Ha. unfold parse_channels.
  destruct (truthy (target_channel (config st))); simpl; [|auto].
  destruct (channels_from_to (length (channels (config st))) 0 envc st) as [_ H].
  apply H. exact Ha.
Qed.

(** The loop over the channels, one channel on. *)
Lemma channels_from_S (fuel i : nat) (env : text -> feed) (st : state)
    (channel : text) (items : list (message * send_outcome * send_outcome))
    (e : feed_end) :
  channels (config st) !! i = Some channel ->
  env channel = (items, e) ->
  channels_from (S fuel) i env st
  = let '(st1, ev1, how) := scan_messages st items in
    match how with
    | Stopped => (st1, LogInfo :: ev1)
    | BodyRaised =>
        let '(st2, ev2) := channels_from fuel (S i) env st1 in
        (st2, LogInfo :: ev1 ++ [LogError] ++ ev2)
    | Exhausted =>
        let '(st2, ev2) := channels_from fuel (S i) env st1 in
        (st2, LogInfo :: ev1 ++ end_events e ++ ev2)
    end.
Proof. intros H1 H2. simpl. rewrite H1, H2. reflexivity. Qed.

(** X25: a message that is not skipped and whose text is falsy, such as a
    photo sent without text, raises [AttributeError] at the read of
    [msg.caption]: no call is made for it and the state is as it was; the
    messages after it in the channel are not scanned, whatever they are; the
    error is logged and the pass goes on with the next channel. *)
Theorem falsy_text_ends_channel_scan (st : state) (msg : message)
    (o1 o2 : send_outcome)
    (pre rest : list (message * send_outcome * send_outcome))
    (fuel i : nat) (env : text -> feed) (channel : text) (e : feed_end) :
  truthy (msg_message msg) = true \/ msg_media msg <> None ->
  truthy (msg_text msg) = false ->
  channel_body st msg o1 o2 = (st, [], Raised AttributeError)
  /\ scan_messages st (pre ++ (msg, o1, o2) :: rest)
     = scan_messages st (pre ++ [(msg, o1, o2)])
  /\ (parsing_active st = true ->
      scan_messages st ((msg, o1, o2) :: rest) = (st, [], BodyRaised))
  /\ (parsing_active st = true ->
      channels (config st) !! i = Some channel ->
      env channel = ((msg, o1, o2) :: rest, e) ->
      channels_from (S fuel) i env st
      = (fst (channels_from fuel (S i) env st),
         LogInfo :: LogError :: snd (channels_from fuel (S i) env st))).
Proof.
  intros Hbody Htext.
  assert (Hraise : forall s, channel_body s msg o1 o2 = (s, [], Raised AttributeError)).
  { intros s. unfold channel_body.
    destruct (falsy_text_or_caption msg Htext) as [-> _].
    destruct (negb (truthy (msg_message msg))
              && negb (bool_decide (is_Some (msg_media msg)))) eqn:Hskip;
      [|reflexivity].
    exfalso. apply andb_true_iff in Hskip as [H1 H2].
    apply negb_true_iff in H1. apply negb_true_iff in H2.
    apply bool_decide_eq_false in H2.
    destruct Hbody as [H | H]; [congruence|].
    destruct (msg_media msg); [apply H2; eauto | congruence]. }
  assert (Hone : forall s l, parsing_active s = true ->
            scan_messages s ((msg, o1, o2) :: l) = (s, [], BodyRaised)).
  { intros s l Ha. rewrite (scan_messages_cons s msg o1 o2 l Ha).
    unfold channel_item. rewrite (Hraise s). reflexivity. }
  repeat apply conj.
  - apply Hraise.
  - revert st. induction pre as [|[[m a] b] pre IH]; intros st.
    + simpl app. destruct (parsing_active st) eqn:Ha.
      * rewrite !Hone by exact Ha. reflexivity.
      * simpl. rewrite Ha. reflexivity.
    + rewrite <- !app_comm_cons. destruct (parsing_active st) eqn:Ha.
      * rewrite !(scan_messages_cons st m a b _ Ha).
        destruct (snd (channel_body st m a b)); [|reflexivity].
        rewrite IH. reflexivity.
      * simpl. rewrite Ha. reflexivity.
  - intros Ha. apply Hone. exact Ha.
  - intros Ha Hch Henv.
    rewrite (channels_from_S fuel i env st channel _ e Hch Henv).
    rewrite (Hone st rest Ha).
    destruct (channels_from fuel (S i) env st) as [st2 ev2]. reflexivity.
Qed.

End ScanFacts.

Lemma free_of_suffix (w : text) (bad : ascii -> bool) (pre s : text) :
  free_of w bad (pre ++ s) -> free_of w bad s.
Proof.
  intros H a b x Hs. apply (H (pre ++ a) b x). rewrite Hs, <- app_assoc.
  reflexivity.
Qed.

Lemma free_of_prefix (w : text) (bad : ascii -> bool) (s post : text) :
  free_of w bad (s ++ post) -> free_of w bad s.
Proof.
  intros H a b x Hs. apply (H a (b ++ post) x). rewrite Hs.
  rewrite <- !app_assoc. reflexivity.
Qed.

Lemma free_of_cons (w : text) (bad : ascii -> bool) (d : ascii) (s : text) :
  free_of w bad s ->
  (forall x b, d :: s = w ++ x :: b -> bad x = false) ->
  free_of w bad (d :: s).
Proof.
  intros Hs Hd a b x H. destruct a as [|a0 a].
  - apply (Hd x b). exact H.
  - injection H as _ H. apply (Hs a b x). exact H.
Qed.

Lemma free_of_nil (w : text) (bad : ascii -> bool) : free_of w bad [].
Proof. intros a b x H. destruct a, w; discriminate. Qed.

Lemma strip_free_of (w : text) (bad : ascii -> bool) (s : text) :
  free_of w bad s -> free_of w bad (strip s).
Proof.
  intros H. unfold strip.
  destruct (lstrip_suffix s) as [pre Hpre].
  destruct (rstrip_prefix (lstrip s)) as [post Hpost].
  rewrite Hpre in H. apply free_of_suffix in H.
  rewrite Hpost in H. apply free_of_prefix in H. exact H.
Qed.

(** A scan that deletes leaves no [w] followed by a character of [bad], when
    every rest starts outside [good], [w] and [bad] are inside [good], and a
    head [w] followed by [bad] is matched. *)
Lemma deleting_pass_free_of (r : regex) (m : text -> option text)
    (good bad : ascii -> bool) (w : text) :
  scans r m ->
  (forall s rest c rest0, m s = Some rest -> rest = c :: rest0 -> good c = false) ->
  Forall (fun c => good c = true) w ->
  (forall x, bad x = true -> good x = true) ->
  (forall x b, m (w ++ x :: b) = None -> bad x = false) ->
  w <> [] ->
  forall s, free_of w bad (re_sub r (Const []) s).
Proof.
  intros Hsc Hrest Hw Hbad Hnone Hne s.
  induction s as [s IH] using text_length_ind.
  destruct (re_sub r (Const []) s) as [|d out] eqn:E; [apply free_of_nil|].
  destruct (scan_tail r [] m Hsc (Nat.le_0_l 1) s d out E)
    as (pre & s1 & Hpre & Hs & Hout).
  apply free_of_cons.
  - rewrite Hout. apply IH. subst s. rewrite length_app.
    destruct pre; [congruence | simpl; lia].
  - intros x b Hd. destruct (bad x) eqn:Hx; [|reflexivity]. exfalso.
    rewrite Hd in E.
    replace (w ++ x :: b) with ((w ++ [x]) ++ b) in E
      by (rewrite <- app_assoc; reflexivity).
    destruct (scan_head_prefix r [] m good Hsc (Forall_nil_2 _)
                (fun _ => Hrest) (w ++ [x]) s b) as (Hm & s2 & Hs2 & _).
    + apply Forall_app. split; [exact Hw|].
      apply Forall_cons_2; [apply Hbad; exact Hx | apply Forall_nil_2].
    + exact E.
    + rewrite Hs2, <- app_assoc in Hm. simpl in Hm.
      rewrite (Hnone x s2) in Hx; [discriminate|].
      apply Hm. destruct w; [congruence | discriminate].
Qed.

(** The white-space pass keeps [free_of] for strings without white space. *)
Lemma spaces_pass_free_of (w : text) (bad : ascii -> bool) (s : text) :
  Forall (fun c => not_space c = true) w ->
  (forall x, bad x = true -> not_space x = true) ->
  free_of w bad s -> free_of w bad (re_sub re_spaces (Const (txt " ")) s).
Proof.
  intros Hw Hbad. induction s as [s IH] using text_length_ind. intros Hs.
  destruct (re_sub re_spaces (Const (txt " ")) s) as [|d out] eqn:E;
    [apply free_of_nil|].
  destruct (scan_tail re_spaces (txt " ") (plus_rest isspace) scans_spaces
              (Nat.le_refl 1) s d out E) as (pre & s1 & Hne & Hs1 & Hout).
  apply free_of_cons.
  - rewrite Hout. apply IH.
    + subst s. rewrite length_app. destruct pre; [congruence | simpl; lia].
    + subst s. apply free_of_suffix in Hs. exact Hs.
  - intros x b Hd. destruct (bad x) eqn:Hx; [|reflexivity]. exfalso.
    rewrite Hd in E.
    replace (w ++ x :: b) with ((w ++ [x]) ++ b) in E
      by (rewrite <- app_assoc; reflexivity).
    destruct (scan_head_prefix re_spaces (txt " ") (plus_rest isspace) not_space
                scans_spaces space_is_space ltac:(discriminate)
                (w ++ [x]) s b) as (_ & s2 & Hs2 & _).
    + apply Forall_app. split; [exact Hw|].
      apply Forall_cons_2; [apply Hbad; exact Hx | apply Forall_nil_2].
    + exact E.
    + rewrite (Hs [] s2 x) in Hx; [discriminate|].
      rewrite Hs2, <- app_assoc. reflexivity.
Qed.

Lemma re_match_lit_plus_k {X} (p : text) (q : ascii -> bool) (s : text)
    (g : option text) (k : text -> option text -> option X) :
  (forall s1, k s1 g <> None) ->
  re_match (Seq (literal false p) (Plus q)) s g k
  = match lit_plus_rest p q s with Some rest => k rest g | None => None end.
Proof.
  intros Hk. unfold lit_plus_rest. rewrite re_match_seq, re_match_literal.
  destruct (starts_with p s); [|reflexivity].
  apply re_match_plus_total. exact Hk.
Qed.

Lemma re_match_chr {X} (p : ascii -> bool) (s : text) (g : option text)
    (k : text -> option text -> option X) :
  re_match (Chr p) s g k
  = match s with
    | c :: s' => if p c then k s' g else None
    | [] => None
    end.
Proof. reflexivity. Qed.

Lemma re_match_eps {X} (s : text) (g : option text)
    (k : text -> option text -> option X) :
  re_match Eps s g k = k s g.
Proof. reflexivity. Qed.

Lemma match_here_url (s : text) :
  match_here re_url s
  = (fun rest => (length s - length rest, None)) <$> url_rest s.
Proof.
  unfold match_here, re_url, url_rest.
  rewrite re_match_seq, re_match_literal.
  destruct (starts_with (txt "http") s); [|reflexivity].
  change (length (txt "http")) with 4.
  rewrite re_match_seq.
  change (re_match (Alt ?a ?b) ?s0 ?g ?k)
    with (match re_match a s0 g k with
          | Some x => Some x
          | None => re_match b s0 g k
          end).
  rewrite re_match_chr, re_match_eps.
  destruct (drop 4 s) as [|c s1].
  - rewrite re_match_lit_plus_k by discriminate.
    destruct (lit_plus_rest (txt "://") not_space []); reflexivity.
  - destruct (lit_char false "s" c).
    + rewrite re_match_lit_plus_k by discriminate.
      destruct (lit_plus_rest (txt "://") not_space s1); [reflexivity|].
      rewrite re_match_lit_plus_k by discriminate.
      destruct (lit_plus_rest (txt "://") not_space (c :: s1)); reflexivity.
    + rewrite re_match_lit_plus_k by discriminate.
      destruct (lit_plus_rest (txt "://") not_space (c :: s1)); reflexivity.
Qed.

Lemma url_rest_shape (s rest : text) :
  url_rest s = Some rest ->
  exists pre, pre <> [] /\ s = pre ++ rest
              /\ Forall (fun c => not_space c = true) pre.
Proof.
  unfold url_rest. destruct (starts_with (txt "http") s) eqn:Hp; [|discriminate].
  apply starts_with_spec in Hp as [s0 ->].
  change (drop 4 (txt "http" ++ s0)) with s0.
  assert (Hlit : forall s1 rest', lit_plus_rest (txt "://") not_space s1 = Some rest' ->
            exists pre, s1 = txt "://" ++ pre ++ rest'
                        /\ Forall (fun c => not_space c = true) pre).
  { intros s1 rest' H. apply lit_plus_rest_suffix in H as (pre & _ & -> & Hq).
    eauto. }
  destruct s0 as [|c s1].
  - intros H. apply Hlit in H as (pre & H & _). discriminate.
  - unfold lit_char.
    destruct (Ascii.eqb_spec c "s") as [->|Hc].
    + destruct (lit_plus_rest (txt "://") not_space s1) eqn:E.
      * intros H. injection H as ->. apply Hlit in E as (pre & -> & Hq).
        exists (txt "https://" ++ pre). split; [discriminate|].
        split; [rewrite <- app_assoc; reflexivity|].
        apply Forall_app. split; [repeat constructor | exact Hq].
      * intros H. apply Hlit in H as (pre & H & _). discriminate.
    + intros H. apply Hlit in H as (pre & -> & Hq).
      exists (txt "http://" ++ pre). split; [discriminate|].
      split; [rewrite <- app_assoc; reflexivity|].
      apply Forall_app. split; [repeat constructor | exact Hq].
Qed.

Lemma scans_url : scans re_url url_rest.
Proof.
  split.
  - intros s. rewrite match_here_url. destruct (url_rest s); reflexivity.
  - intros s rest H. apply url_rest_shape in H as (pre & Hne & Hs & _). eauto.
Qed.

Lemma url_rest_eq (s rest : text) :
  url_rest s = Some rest -> rest = drop_while not_space s.
Proof.
  intros H. pose proof H as Hsh. apply url_rest_shape in Hsh as (pre & _ & -> & Hq).
  rewrite drop_while_app by exact Hq.
  unfold url_rest in H.
  destruct (starts_with (txt "http") (pre ++ rest)); [|discriminate].
  assert (Hlit : forall s1 rest', lit_plus_rest (txt "://") not_space s1 = Some rest' ->
            rest' = drop_while not_space rest').
  { intros s1 rest' E. unfold lit_plus_rest in E.
    destruct (starts_with (txt "://") s1); [|discriminate].
    apply plus_rest_eq in E.
    destruct (drop (length (txt "://")) s1) as [|c s2]; [rewrite E; reflexivity|].
    simpl in E. destruct rest' as [|d r]; [reflexivity|].
    simpl. destruct (not_space d) eqn:Hd; [|reflexivity].
    exfalso. destruct (not_space c) eqn:Hc.
    - symmetry in E. apply drop_while_head in E. congruence.
    - injection E as -> _. congruence. }
  destruct (drop 4 (pre ++ rest)) as [|c s1].
  - apply Hlit in H. exact H.
  - destruct (lit_char false "s" c).
    + destruct (lit_plus_rest (txt "://") not_space s1) eqn:E.
      * injection H as ->. apply Hlit in E. exact E.
      * apply Hlit in H. exact H.
    + apply Hlit in H. exact H.
Qed.

Lemma url_rest_start (s rest : text) (c : ascii) (rest0 : text) :
  url_rest s = Some rest -> rest = c :: rest0 -> not_space c = false.
Proof.
  intros H ->. apply url_rest_eq in H. symmetry in H.
  apply drop_while_head in H. exact H.
Qed.

Lemma url_rest_none (w : text) (x : ascii) (b : text) :
  w = txt "http://" \/ w = txt "https://" ->
  url_rest (w ++ x :: b) = None -> not_space x = false.
Proof.
  intros [-> | ->]; unfold url_rest, lit_plus_rest; simpl;
    destruct (not_space x); [discriminate | reflexivity
                            | discriminate | reflexivity].
Qed.

(** X14: in what [remove_hyperlinks] returns, [http://] and [https://] are
    never followed by a character other than white space. *)
Theorem remove_hyperlinks_no_url (s a b : text) (x : ascii) :
  remove_hyperlinks s = a ++ txt "http://" ++ x :: b
  \/ remove_hyperlinks s = a ++ txt "https://" ++ x :: b ->
  isspace x = true.
Proof.
  assert (H : forall w, w = txt "http://" \/ w = txt "https://" ->
            free_of w not_space (remove_hyperlinks s)).
  { intros w Hw. unfold remove_hyperlinks.
    destruct s as [|c s0]; [apply free_of_nil|].
    apply strip_free_of.
    apply (deleting_pass_free_of re_url url_rest not_space not_space w scans_url).
    - exact url_rest_start.
    - destruct Hw as [-> | ->]; repeat constructor.
    - auto.
    - intros y b'. apply url_rest_none. exact Hw.
    - destruct Hw as [-> | ->]; discriminate. }
  intros [E | E].
  - specialize (H (txt "http://") (or_introl eq_refl) a b x E).
    unfold not_space in H. apply negb_false_iff in H. exact H.
  - specialize (H (txt "https://") (or_intror eq_refl) a b x E).
    unfold not_space in H. apply negb_false_iff in H. exact H.
Qed.

(** *** Mentions *)

Lemma isword_not_space (c : ascii) : isword c = true -> not_space c = true.
Proof. destruct c as [[] [] [] [] [] [] [] []]; vm_compute; auto. Qed.

Lemma mention_head_unmatched (s : text) (x : ascii) (b : text) :
  re_sub re_mention (Const []) s = "@"%char :: x :: b -> isword x = false.
Proof.
  induction s as [s IH] using text_length_ind.
  rewrite (re_sub_scan re_mention [] mention_rest scans_mention s).
  destruct (mention_rest s) as [rest|] eqn:Em.
  - destruct (proj2 scans_mention s rest Em) as (pre & Hne & ->). simpl.
    apply IH. rewrite length_app. destruct pre; [congruence | simpl; lia].
  - destruct s as [|c s']; [discriminate|]. simpl. intros H.
    injection H as -> H. destruct (isword x) eqn:Hx; [|reflexivity]. exfalso.
    destruct (scan_head re_mention [] mention_rest isword scans_mention
                (Forall_nil_2 _) (fun _ => mention_rest_start) s' x b H Hx)
      as (_ & s1 & -> & _).
    unfold mention_rest, lit_plus_rest in Em. simpl in Em.
    rewrite Hx in Em. discriminate.
Qed.

Lemma mention_pass_free (s : text) :
  free_of (txt "@") isword (re_sub re_mention (Const []) s).
Proof.
  induction s as [s IH] using text_length_ind.
  destruct (re_sub re_mention (Const []) s) as [|d out] eqn:E;
    [apply free_of_nil|].
  destruct (scan_tail re_mention [] mention_rest scans_mention (Nat.le_0_l 1)
              s d out E) as (pre & s1 & Hne & Hs & Hout).
  apply free_of_cons.
  - rewrite Hout. apply IH. subst s. rewrite length_app.
    destruct pre; [congruence | simpl; lia].
  - intros x b Hd. rewrite Hd in E. eapply mention_head_unmatched. exact E.
Qed.

(** X15: with an empty blacklist and no signature, the string returned by
    [clean_text] has no [@] followed by a word character. *)
Theorem clean_text_no_mention (text0 signature : option text) (a b : text)
    (x : ascii) :
  truthy signature = false ->
  clean_text text0 [] signature = a ++ "@"%char :: x :: b ->
  isword x = false.
Proof.
  intros Hsig.
  assert (H : free_of (txt "@") isword (clean_text text0 [] signature)).
  { unfold clean_text. destruct text0 as [[|c t0]|]; try apply free_of_nil.
    simpl fold_left.
    assert (Hbody : free_of (txt "@") isword
              (strip (re_sub re_spaces (Const (txt " "))
                 (re_sub re_mention (Const [])
                    (re_sub re_links (Const []) (c :: t0)))))).
    { apply strip_free_of, spaces_pass_free_of.
      - repeat constructor.
      - apply isword_not_space.
      - apply mention_pass_free. }
    destruct signature as [[|d sg]|]; [exact Hbody | discriminate | exact Hbody]. }
  intros E. exact (H a b x E).
Qed.

(** *** Text without links *)

Lemma re_sub_no_match (r : regex) (rp : repl) (s : text) :
  (forall a b, s = a ++ b -> match_here r b = None) -> re_sub r rp s = s.
Proof.
  induction s as [|c s IH]; intros H.
  - unfold re_sub. simpl. rewrite (H [] [] eq_refl). reflexivity.
  - rewrite re_sub_cons, (H [] (c :: s) eq_refl). f_equal. apply IH.
    intros a b ->. apply (H (c :: a) b). reflexivity.
Qed.

Lemma match_here_literal_head (p : text) (r : regex) (b : text) :
  starts_with p b = false -> match_here (Seq (literal false p) r) b = None.
Proof.
  intros H. unfold match_here. rewrite re_match_seq, re_match_literal, H.
  reflexivity.
Qed.

Lemma no_occurrence_no_head (p s a b : text) :
  occurs p s = false -> s = a ++ b -> starts_with p b = false.
Proof.
  intros Hocc ->. destruct (starts_with p b) eqn:E; [|reflexivity].
  apply starts_with_spec in E as [b' ->].
  assert (occurs p (a ++ p ++ b') = true) by (apply occurs_spec; eauto).
  congruence.
Qed.

(** X16: on a text that contains no [[], no [<a] and no [http],
    [remove_hyperlinks] only strips the white space at both ends. *)
Theorem remove_hyperlinks_plain_text (s : text) :
  occurs (txt "[") s = false ->
  occurs (txt "<a") s = false ->
  occurs (txt "http") s = false ->
  remove_hyperlinks s = strip s.
Proof.
  intros H1 H2 H3. unfold remove_hyperlinks. destruct s as [|c s0]; [reflexivity|].
  rewrite (re_sub_no_match re_md_link).
  2:{ intros a b E. apply match_here_literal_head.
      eapply no_occurrence_no_head; eassumption. }
  rewrite (re_sub_no_match re_html_link).
  2:{ intros a b E. apply match_here_literal_head.
      eapply no_occurrence_no_head; eassumption. }
  rewrite (re_sub_no_match re_url); [reflexivity|].
  intros a b E. apply match_here_literal_head.
  eapply no_occurrence_no_head; eassumption.
Qed.

(** *** Case *)

Lemma lower_nil_iff (t : text) : lower t = [] <-> t = [].
Proof. destruct t; simpl; split; intros H; try discriminate; reflexivity. Qed.

Lemma existsb_lower (T : text) (l : list text) :
  existsb (fun kw => occurs (lower kw) (lower (lower T))) (map lower l)
  = existsb (fun kw => occurs (lower kw) (lower T)) l.
Proof.
  induction l as [|k l IH]; [reflexivity|].
  cbn [map existsb]. rewrite !lower_idem, <- IH, lower_idem. reflexivity.
Qed.

(** X17: [contains_keywords] gives the same answer when the text and the
    keywords are put in lower case. *)
Theorem contains_keywords_ignores_case (text0 : option text) (kws : list text) :
  contains_keywords (lower <$> text0) (map lower kws)
  = contains_keywords text0 kws.
Proof.
  destruct text0 as [t|]; [|reflexivity].
  destruct t as [|c t]; [reflexivity|].
  destruct kws as [|k kws]; [reflexivity|].
  change (lower <$> Some (c :: t)) with (Some (lower_char c :: lower t)).
  change (map lower (k :: kws)) with (lower k :: map lower kws).
  unfold contains_keywords.
  change (lower k :: map lower kws) with (map lower (k :: kws)).
  change (lower (lower_char c :: lower t)) with (lower (lower (c :: t))).
  apply existsb_lower.
Qed.

(** *** White space *)

Lemma spaces_pass_single_spaced (s : text) :
  single_spaced (re_sub re_spaces (Const (txt " ")) s) = true.
Proof.
  induction s as [s IH] using text_length_ind.
  rewrite (re_sub_scan re_spaces (txt " ") (plus_rest isspace) scans_spaces s).
  destruct (plus_rest isspace s) as [rest|] eqn:Em.
  - destruct (proj2 scans_spaces s rest Em) as (pre & Hne & ->).
    assert (Hrest : single_spaced (re_sub re_spaces (Const (txt " ")) rest) = true).
    { apply IH. rewrite length_app. destruct pre; [congruence | simpl; lia]. }
    change (txt " " ++ ?o) with (" "%char :: o). cbn [single_spaced].
    rewrite Hrest, andb_true_r. change (isspace " ") with true.
    change (Ascii.eqb " " " ") with true. cbn [andb].
    apply plus_rest_eq in Em.
    rewrite (re_sub_scan re_spaces (txt " ") (plus_rest isspace) scans_spaces rest).
    destruct rest as [|w rest0]; [reflexivity|].
    assert (Hw : isspace w = false).
    { symmetry in Em. apply drop_while_head in Em. exact Em. }
    cbn [plus_rest]. rewrite Hw. cbn [negb]. rewrite Hw. reflexivity.
  - destruct s as [|c s']; [reflexivity|]. cbn [single_spaced].
    cbn [plus_rest] in Em. destruct (isspace c); [discriminate|].
    cbn [andb]. apply IH. simpl. lia.
Qed.

Lemma single_spaced_app (a b : text) :
  single_spaced (a ++ b) = true ->
  single_spaced a = true /\ single_spaced b = true.
Proof.
  induction a as [|c a IH]; [auto|].
  change ((c :: a) ++ b) with (c :: a ++ b). cbn [single_spaced].
  intros H. apply andb_true_iff in H as [Hc Hab].
  destruct (IH Hab) as [Ha Hb]. split; [|exact Hb].
  rewrite Ha, andb_true_r.
  destruct (isspace c); [|reflexivity].
  apply andb_true_iff in Hc as [Heq Hnext]. rewrite Heq. cbn [andb].
  destruct a; [reflexivity | exact Hnext].
Qed.

Lemma single_spaced_at (s a b : text) (x : ascii) :
  single_spaced s = true -> s = a ++ x :: b -> isspace x = true ->
  x = " "%char /\ forall y b', b = y :: b' -> isspace y = false.
Proof.
  intros H -> Hx. apply single_spaced_app in H as [_ H].
  cbn [single_spaced] in H. rewrite Hx in H.
  apply andb_true_iff in H as [H _]. apply andb_true_iff in H as [Heq Hnext].
  split; [apply Ascii.eqb_eq; exact Heq|].
  intros y b' ->. apply negb_true_iff. exact Hnext.
Qed.

Lemma lstrip_head (s : text) (x : ascii) (b : text) :
  lstrip s = x :: b -> isspace x = false.
Proof.
  induction s as [|c s IH]; simpl; [discriminate|].
  destruct (isspace c) eqn:Hc; [exact IH|].
  intros H. injection H as <- _. exact Hc.
Qed.

Lemma strip_ends (s : text) :
  (forall x b, strip s = x :: b -> isspace x = false)
  /\ (forall a x, strip s = a ++ [x] -> isspace x = false).
Proof.
  unfold strip. split.
  - intros x b H. destruct (rstrip_prefix (lstrip s)) as [post Hpost].
    rewrite H in Hpost. eapply lstrip_head. exact Hpost.
  - intros a x H. unfold rstrip in H.
    apply (f_equal (@rev ascii)) in H.
    rewrite rev_involutive, rev_app_distr in H. simpl in H.
    eapply lstrip_head. exact H.
Qed.

Lemma strip_single_spaced (s : text) :
  single_spaced s = true -> single_spaced (strip s) = true.
Proof.
  intros H. unfold strip.
  destruct (lstrip_suffix s) as [pre Hpre].
  destruct (rstrip_prefix (lstrip s)) as [post Hpost].
  rewrite Hpre in H. apply single_spaced_app in H as [_ H].
  rewrite Hpost in H. apply single_spaced_app in H as [H _]. exact H.
Qed.

(** X18: with no signature, the string returned by [clean_text] neither
    starts nor ends with white space, and every white-space character in it
    is a single space followed by a character that is not white space. *)
Theorem clean_text_whitespace (text0 : option text) (blacklist : list text)
    (signature : option text) :
  truthy signature = false ->
  (forall x b, clean_text text0 blacklist signature = x :: b ->
     isspace x = false)
  /\ (forall a x, clean_text text0 blacklist signature = a ++ [x] ->
     isspace x = false)
  /\ (forall a b x, clean_text text0 blacklist signature = a ++ x :: b ->
     isspace x = true ->
     x = " "%char /\ forall y b', b = y :: b' -> isspace y = false).
Proof.
  intros Hsig.
  assert (H : exists body, clean_text text0 blacklist signature = strip body
                           /\ single_spaced body = true).
  { unfold clean_text. destruct text0 as [[|c t0]|];
      try (exists []; split; reflexivity).
    eexists. split; [|apply spaces_pass_single_spaced].
    destruct signature as [[|d sg]|]; [reflexivity | discriminate | reflexivity]. }
  destruct H as (body & -> & Hbody).
  destruct (strip_ends body) as [Hhead Hlast].
  split; [exact Hhead|]. split; [exact Hlast|].
  intros a b x E Hx.
  eapply single_spaced_at; [apply strip_single_spaced; exact Hbody | exact E | exact Hx].
Qed.

Lemma lstrip_keeps (s : text) (x : ascii) :
  x ∈ s -> isspace x = false -> x ∈ lstrip s.
Proof.
  induction s as [|c s IH]; intros Hin Hx; [inversion Hin|].
  simpl. destruct (isspace c) eqn:Hc; [|exact Hin].
  apply elem_of_cons in Hin as [->|Hin]; [congruence|]. apply IH; assumption.
Qed.

Lemma elem_of_rev (x : ascii) (l : text) : x ∈ rev l <-> x ∈ l.
Proof. rewrite !list_elem_of_In. symmetry. apply in_rev. Qed.

Lemma strip_keeps (s : text) (x : ascii) :
  x ∈ s -> isspace x = false -> x ∈ strip s.
Proof.
  intros Hin Hx. unfold strip, rstrip.
  apply elem_of_rev, lstrip_keeps; [|exact Hx].
  apply elem_of_rev, lstrip_keeps; assumption.
Qed.

Lemma strip_subset (s : text) (x : ascii) : x ∈ strip s -> x ∈ s.
Proof.
  unfold strip. intros H.
  destruct (lstrip_suffix s) as [pre Hpre].
  destruct (rstrip_prefix (lstrip s)) as [post Hpost].
  rewrite Hpre, Hpost, !elem_of_app. auto.
Qed.

Lemma split_char_no_sep (sep : ascii) (s p : text) :
  p ∈ split_char sep s -> sep ∉ p.
Proof.
  revert p. induction s as [|c s IH]; intros p; simpl.
  - intros H. apply list_elem_of_singleton in H. subst p. apply not_elem_of_nil.
  - destruct (Ascii.eqb_spec c sep) as [->|Hc].
    + intros H. apply elem_of_cons in H as [->|H]; [apply not_elem_of_nil | auto].
    + destruct (split_char sep s) as [|h t] eqn:E.
      * intros H. apply list_elem_of_singleton in H. subst p.
        rewrite not_elem_of_cons. split; [congruence | apply not_elem_of_nil].
      * intros H. apply elem_of_cons in H as [->|H].
        -- rewrite not_elem_of_cons. split; [congruence|].
           apply IH. apply list_elem_of_here.
        -- apply IH. apply list_elem_of_further. exact H.
Qed.

Lemma split_char_covers (sep : ascii) (s : text) (x : ascii) :
  x ∈ s -> x <> sep -> exists p, p ∈ split_char sep s /\ x ∈ p.
Proof.
  induction s as [|c s IH]; intros Hin Hx; [inversion Hin|]. simpl.
  destruct (Ascii.eqb_spec c sep) as [->|Hc].
  - apply elem_of_cons in Hin as [->|Hin]; [congruence|].
    destruct (IH Hin Hx) as (p & Hp & Hxp). exists p.
    split; [apply list_elem_of_further; exact Hp | exact Hxp].
  - apply elem_of_cons in Hin as [->|Hin].
    + destruct (split_char sep s) as [|h t]; eexists;
        (split; [apply list_elem_of_here | apply list_elem_of_here]).
    + destruct (IH Hin Hx) as (p & Hp & Hxp).
      destruct (split_char sep s) as [|h t]; [inversion Hp|].
      apply elem_of_cons in Hp as [->|Hp].
      * exists (c :: h). split; [apply list_elem_of_here|].
        apply list_elem_of_further. exact Hxp.
      * exists p. split; [apply list_elem_of_further; exact Hp | exact Hxp].
Qed.

Lemma occurs_keywords_char (t : text) :
  occurs (txt "keywords") (lower t) = true ->
  exists d, d ∈ t /\ lower_char d = "k"%char.
Proof.
  intros H. apply occurs_spec in H as (a & b & H).
  assert (Hin : "k"%char ∈ lower t).
  { rewrite H. apply elem_of_app. right. apply list_elem_of_here. }
  apply list_elem_of_fmap in Hin as (d & Hd & Hin). eauto.
Qed.

Lemma lower_k_plain (d : ascii) :
  lower_char d = "k"%char ->
  isspace d = false /\ d <> ","%char /\ d <> "-"%char.
Proof.
  intros H. split; [|split].
  - rewrite <- isspace_lower_char, H. reflexivity.
  - intros ->. discriminate.
  - intros ->. discriminate.
Qed.

(** X19: when no input is awaited, a message that is [-], with or without
    white space around it, leaves the state as it was: the branch of
    [handle_text] that clears the keywords cannot be reached, since it is
    under the test that the text contains [keywords]. *)
Theorem dash_message_changes_nothing (st : state) (t : text) (ok : bool) :
  awaiting_target_channel st = false -> awaiting_source st = false ->
  strip t = txt "-" ->
  handle_text st (Plain t) ok = st.
Proof.
  intros Ha Hb Hdash. unfold handle_text. rewrite Ha, Hb.
  destruct (occurs (txt "keywords") (lower t)) eqn:Hocc; [|reflexivity].
  exfalso. apply occurs_keywords_char in Hocc as (d & Hin & Hd).
  destruct (lower_k_plain d Hd) as (Hsp & _ & Hdash').
  apply (strip_keeps t d Hin) in Hsp. rewrite Hdash in Hsp.
  apply list_elem_of_singleton in Hsp. contradiction.
Qed.

(** X20: when no input is awaited and the text contains [keywords] in any
    case, [handle_text] stores a keyword list that is not empty, whose
    keywords are not empty, contain no comma and neither start nor end with
    white space; it saves the configuration and leaves the ledger and the
    destination as they were. *)
Theorem keywords_message_sets_clean_keywords (st : state) (t : text) (ok : bool) :
  awaiting_target_channel st = false -> awaiting_source st = false ->
  occurs (txt "keywords") (lower t) = true ->
  let st' := handle_text st (Plain t) ok in
  keywords (config st') <> []
  /\ Forall (fun kw => kw <> [] /\ (","%char ∉ kw)
                       /\ (forall x b, kw = x :: b -> isspace x = false)
                       /\ (forall a x, kw = a ++ [x] -> isspace x = false))
            (keywords (config st'))
  /\ config_file st' = Parsed (dump (config st'))
  /\ sent_hashes (config st') = sent_hashes (config st)
  /\ target_channel (config st') = target_channel (config st).
Proof.
  intros Ha Hb Hocc st'.
  assert (Hst : st' = do_save (update_config st
            (with_keywords (config st)
               (filter (fun kw => kw <> []) (map strip (split_char "," t)))))).
  { subst st'. unfold handle_text. rewrite Ha, Hb, Hocc.
    case_bool_decide as Hdash; [|reflexivity]. exfalso.
    apply occurs_keywords_char in Hocc as (d & Hin & Hd).
    destruct (lower_k_plain d Hd) as (Hsp & _ & Hdash').
    apply (strip_keeps t d Hin) in Hsp. rewrite Hdash in Hsp.
    apply list_elem_of_singleton in Hsp. contradiction. }
  rewrite Hst. clear Hst st'.
  assert (Hk : keywords (config (do_save (update_config st
            (with_keywords (config st)
               (filter (fun kw => kw <> []) (map strip (split_char "," t)))))))
          = filter (fun kw => kw <> []) (map strip (split_char "," t))).
  { unfold do_save, save. simpl.
    unfold clean_sources. repeat case_match; reflexivity. }
  rewrite Hk. repeat apply conj.
  - apply occurs_keywords_char in Hocc as (d & Hin & Hd).
    destruct (lower_k_plain d Hd) as (Hsp & Hcomma & _).
    destruct (split_char_covers "," t d Hin Hcomma) as (p & Hp & Hdp).
    intros Hnil.
    assert (Hin' : strip p ∈ filter (fun kw => kw <> [])
                     (map strip (split_char "," t))).
    { apply list_elem_of_filter. split.
      - intros E. apply (strip_keeps p d Hdp) in Hsp. rewrite E in Hsp.
        inversion Hsp.
      - apply list_elem_of_fmap. eauto. }
    rewrite Hnil in Hin'. inversion Hin'.
  - apply Forall_forall. intros kw Hkw.
    apply list_elem_of_filter in Hkw as [Hne Hkw].
    apply list_elem_of_fmap in Hkw as (p & -> & Hp).
    split; [exact Hne|]. split.
    + intros Hc. apply strip_subset in Hc.
      exact (split_char_no_sep "," t p Hp Hc).
    + apply strip_ends.
  - reflexivity.
  - unfold do_save, save. simpl. rewrite sent_hashes_clean_sources. reflexivity.
  - unfold do_save, save. simpl. rewrite target_clean_sources. reflexivity.
Qed.

(** X21: Stop is accepted exactly when the loop is on; otherwise it changes
    nothing.  After Stop the loop is off, the task of a running loop is no
    longer pending, the configuration is unchanged, and Start is accepted
    again exactly when a destination is set. *)
Theorem stop_then_start (st : state) :
  (snd (stop_parsing_handler st) = AnswerStopped <-> parsing_active st = true)
  /\ (parsing_active st = false -> stop_parsing_handler st = (st, AnswerNotActive))
  /\ parsing_active (fst (stop_parsing_handler st)) = false
  /\ (parsing_active st = true ->
      parsing_task (fst (stop_parsing_handler st)) <> Some TaskPending)
  /\ config (fst (stop_parsing_handler st)) = config st
  /\ (snd (start_parsing_handler (fst (stop_parsing_handler st))) = AnswerStarted
      <-> destination_set st = true).
Proof.
  unfold stop_parsing_handler, start_parsing_handler, destination_set.
  destruct (parsing_active st) eqn:Ha; simpl.
  - destruct (truthy (target_channel (config st))); simpl;
      repeat split; try discriminate; auto;
      destruct (parsing_task st); discriminate.
  - rewrite Ha. destruct (truthy (target_channel (config st))); simpl;
      repeat split; try discriminate; auto.
Qed.

Lemma plus_tail_stop {X} (p : ascii -> bool) (l rest : text)
    (k : text -> option X) (x : X) :
  Forall (fun c => p c = true) l ->
  (forall c r, rest = c :: r -> p c = false) ->
  k rest = Some x ->
  plus_tail p (l ++ rest) k = Some x.
Proof.
  intros Hl Hrest Hk. induction Hl as [|a l Ha Hl IH]; simpl.
  - destruct rest as [|c r]; simpl; [exact Hk|].
    rewrite (Hrest c r eq_refl). exact Hk.
  - rewrite Ha, IH. reflexivity.
Qed.

Lemma re_match_plus_stop {X} (p : ascii -> bool) (l rest : text)
    (g : option text) (k : text -> option text -> option X) (x : X) :
  l <> [] ->
  Forall (fun c => p c = true) l ->
  (forall c r, rest = c :: r -> p c = false) ->
  k rest g = Some x ->
  re_match (Plus p) (l ++ rest) g k = Some x.
Proof.
  intros Hne Hl Hrest Hk. destruct l as [|a l]; [congruence|].
  inversion Hl as [|? ? Ha Hl']; subst. simpl. rewrite Ha.
  apply (plus_tail_stop p l rest (fun s1 => k s1 g)); assumption.
Qed.

Lemma not_char_Forall (a : ascii) (l : text) :
  a ∉ l -> Forall (fun c => not_char a c = true) l.
Proof.
  intros H. apply Forall_forall. intros c Hc. unfold not_char.
  apply negb_true_iff. destruct (Ascii.eqb_spec c a) as [->|]; [contradiction|].
  reflexivity.
Qed.

Lemma match_here_md_link (label url post : text) :
  label <> [] -> "]"%char ∉ label -> url <> [] -> ")"%char ∉ url ->
  match_here re_md_link (txt "[" ++ label ++ txt "](" ++ url ++ txt ")" ++ post)
  = Some (length (txt "[" ++ label ++ txt "](" ++ url ++ txt ")") , Some label).
Proof.
  intros Hl1 Hl2 Hu1 Hu2. unfold match_here, re_md_link.
  set (s := txt "[" ++ label ++ txt "](" ++ url ++ txt ")" ++ post).
  rewrite re_match_seq, re_match_literal.
  change (starts_with (txt "[") s) with true. cbn iota.
  change (drop (length (txt "[")) s)
    with (label ++ txt "](" ++ url ++ txt ")" ++ post).
  rewrite re_match_seq.
  change (re_match (Group ?a) ?s0 ?g ?k)
    with (re_match a s0 g
            (fun s1 _ => k s1 (Some (take (length s0 - length s1) s0)))).
  apply re_match_plus_stop.
  - exact Hl1.
  - apply not_char_Forall. exact Hl2.
  - intros c r E. injection E as <- _. reflexivity.
  - replace (take _ _) with label.
    2:{ rewrite length_app.
        replace (length label + length (txt "](" ++ url ++ txt ")" ++ post)
                 - length (txt "](" ++ url ++ txt ")" ++ post))
          with (length label) by lia.
        rewrite take_app_length. reflexivity. }
    rewrite re_match_seq, re_match_literal.
    change (starts_with (txt "](") (txt "](" ++ url ++ txt ")" ++ post)) with true.
    cbn iota.
    change (drop (length (txt "](")) (txt "](" ++ url ++ txt ")" ++ post))
      with (url ++ txt ")" ++ post).
    rewrite re_match_seq. apply re_match_plus_stop.
    + exact Hu1.
    + apply not_char_Forall. exact Hu2.
    + intros c r E. injection E as <- _. reflexivity.
    + rewrite re_match_literal.
      change (starts_with (txt ")") (txt ")" ++ post)) with true. cbn iota.
      change (drop (length (txt ")")) (txt ")" ++ post)) with post.
      f_equal. f_equal. subst s. rewrite !length_app. simpl. lia.
Qed.

(** X22: [remove_hyperlinks] turns a markdown link into its label, stripped,
    when the label has no closing bracket, the address no closing
    parenthesis, neither is empty, and the label has no [<a] and no [http]
    in it. *)
Theorem remove_hyperlinks_markdown_link (label url : text) :
  label <> [] -> "]"%char ∉ label -> url <> [] -> ")"%char ∉ url ->
  occurs (txt "<a") label = false ->
  occurs (txt "http") label = false ->
  remove_hyperlinks (txt "[" ++ label ++ txt "](" ++ url ++ txt ")")
  = strip label.
Proof.
  intros Hl1 Hl2 Hu1 Hu2 Ha Hh.
  assert (Hmd : re_sub re_md_link Group1
                  (txt "[" ++ label ++ txt "](" ++ url ++ txt ")") = label).
  { pose proof (match_here_md_link label url [] Hl1 Hl2 Hu1 Hu2) as Hm.
    rewrite !app_nil_r in Hm.
    change (txt "[" ++ label ++ txt "](" ++ url ++ txt ")")
      with ("["%char :: label ++ txt "](" ++ url ++ txt ")") in *.
    rewrite re_sub_cons, Hm.
    change (length ("["%char :: label ++ txt "](" ++ url ++ txt ")"))
      with (S (length (label ++ txt "](" ++ url ++ txt ")"))).
    cbn [expand]. rewrite drop_all.
    unfold re_sub. simpl. rewrite app_nil_r. reflexivity. }
  unfold remove_hyperlinks.
  change (txt "[" ++ label ++ txt "](" ++ url ++ txt ")")
    with ("["%char :: label ++ txt "](" ++ url ++ txt ")") in *.
  cbv zeta. rewrite Hmd.
  rewrite (re_sub_no_match re_html_link).
  2:{ intros a b E. apply match_here_literal_head.
      eapply no_occurrence_no_head; eassumption. }
  rewrite (re_sub_no_match re_url); [reflexivity|].
  intros a b E. apply match_here_literal_head.
  eapply no_occurrence_no_head; eassumption.
Qed.

Section HandlerFacts.

Variable md5_hexdigest : text -> text.

(** X23: on a configuration whose sources are tidy, [confirm_remove_handler]
    removes the first channel whose digest is the one given, or else the
    first such site, which is then no longer listed, leaves the other list
    as it was and saves; when no source has that digest the state is
    unchanged. *)
Theorem confirm_remove_removes_the_source (st : state) (h : text) :
  sources_tidy (config st) ->
  let hit := fun source => bool_decide (md5_hexdigest source = h) in
  let st' := confirm_remove_handler md5_hexdigest st h in
  (forall x, List.find hit (channels (config st)) = Some x ->
     channels (config st') = list_remove x (channels (config st))
     /\ (x ∉ channels (config st'))
     /\ sites (config st') = sites (config st)
     /\ config_file st' = Parsed (dump (config st')))
  /\ (forall x, List.find hit (channels (config st)) = None ->
      List.find hit (sites (config st)) = Some x ->
      sites (config st') = list_remove x (sites (config st))
      /\ (x ∉ sites (config st'))
      /\ channels (config st') = channels (config st)
      /\ config_file st' = Parsed (dump (config st')))
  /\ (List.find hit (channels (config st)) = None ->
      List.find hit (sites (config st)) = None -> st' = st).
Proof.
  intros (Hc & Hs & Ht) hit st'. subst st'. unfold confirm_remove_handler.
  fold hit. repeat apply conj.
  - intros x Hx. rewrite Hx.
    assert (Hfix : clean_sources (with_channels (config st)
                     (list_remove x (channels (config st))))
                   = with_channels (config st) (list_remove x (channels (config st)))).
    { apply clean_sources_fixed. simpl. intros t Htgt Hne Hin.
      apply (Ht t Htgt Hne). eapply list_remove_subset. exact Hin. }
    unfold list_sources_handler, do_save, save. simpl.
    rewrite !Hfix. simpl. repeat split.
    apply list_remove_not_in. exact Hc.
  - intros x Hn Hx. rewrite Hn, Hx.
    assert (Hfix : clean_sources (with_sites (config st)
                     (list_remove x (sites (config st))))
                   = with_sites (config st) (list_remove x (sites (config st)))).
    { apply clean_sources_fixed. simpl. exact Ht. }
    unfold list_sources_handler, do_save, save. simpl.
    rewrite !Hfix. simpl. repeat split.
    apply list_remove_not_in. exact Hs.
  - intros Hn1 Hn2. rewrite Hn1, Hn2. reflexivity.
Qed.

End HandlerFacts.

(** X24: while the destination is awaited, a message whose stripped text
    starts with [@] and names an entity becomes the destination: it is
    stored, saved, no longer awaited, and is not among the channels when
    these had no duplicate; any other message leaves the state as it was,
    the destination still awaited. *)
Theorem handle_text_sets_destination (st : state) (t : text) (ok : bool) :
  awaiting_target_channel st = true ->
  let st' := handle_text st (Plain t) ok in
  (starts_with (txt "@") (strip t) = true -> ok = true ->
     target_channel (config st') = Some (strip t)
     /\ destination_set st' = true
     /\ awaiting_target_channel st' = false
     /\ config_file st' = Parsed (dump (config st'))
     /\ (NoDup (channels (config st)) -> strip t ∉ channels (config st')))
  /\ (starts_with (txt "@") (strip t) = false \/ ok = false -> st' = st).
Proof.
  intros Ha st'. subst st'. unfold handle_text. rewrite Ha. split.
  - intros Hat ->. rewrite Hat. cbn [negb].
    assert (Htgt : target_channel (clean_sources
                     (with_target (config st) (Some (strip t)))) = Some (strip t)).
    { rewrite target_clean_sources. reflexivity. }
    unfold destination_set, do_save, save. simpl. rewrite Htgt.
    split; [reflexivity|]. split; [apply starts_with_at_truthy; exact Hat|].
    split; [reflexivity|]. split; [reflexivity|].
    intros Hnd. apply clean_sources_excludes; [exact Hnd | reflexivity|].
    destruct (strip t); [discriminate | discriminate].
  - intros [Hat | ->].
    + rewrite Hat. reflexivity.
    + destruct (starts_with (txt "@") (strip t)); reflexivity.
Qed.

(** ** Instances of the further properties *)

Lemma db_config_set_then_get_witness :
  db_get_config (txt "b") (fst (db_set_config (txt "a") (txt "1") (init_db None)))
  = db_get_config (txt "b") (init_db None).
Proof.
  destruct (db_config_set_then_get (txt "a") (txt "1") (txt "b") None)
    as (_ & H & _).
  apply H. discriminate.
Defined.

Lemma add_blacklist_keeps_and_adds_witness :
  let d := fst (add_blacklist (txt "Spam") (init_db None)) in
  exists l0 l1,
    get_blacklist (init_db d) = Return l0
    /\ get_blacklist (fst (add_blacklist (txt "Spam") (init_db d))) = Return l1
    /\ l1 = l0.
Proof.
  intros d.
  destruct (add_blacklist_keeps_and_adds (txt "Spam") d)
    as (_ & l0 & l1 & H0 & H1 & _ & _ & Hsame & _).
  exists l0, l1. split; [exact H0|]. split; [exact H1|].
  apply Hsame. apply list_elem_of_here.
Defined.

Lemma get_donors_after_adds_witness :
  exists r,
    get_donors (fold_left (fun db u => fst (add_donor u db))
                          [txt "@a"; txt "@a"; txt "@b"] (init_db None))
    = Return r
    /\ txt "@b" ∈ r.
Proof.
  destruct (get_donors_after_adds [txt "@a"; txt "@a"; txt "@b"])
    as (r & Hr & _ & Hin).
  exists r. split; [exact Hr|]. apply Hin.
  apply list_elem_of_further, list_elem_of_further, list_elem_of_here.
Defined.

Lemma save_then_load_witness :
  let c := mkConfig [txt "@src"] [] [] (Some (txt "@dst")) ∅ in
  load default_config (snd (save c)) = Return (fst (save c)).
Proof.
  intros c. destruct (save_then_load default_config c) as [_ H].
  apply H. apply NoDup_singleton.
Defined.

Lemma run_keeps_sources_tidy_witness :
  sources_tidy (config (handle_text (idle_state false true)
                                    (Plain (txt "t.me/news")) true)).
Proof.
  apply (run_keeps_sources_tidy demo_hash demo_repr (idle_state false true)).
  - apply rtc_once, step_text.
  - split; [apply NoDup_nil_2|]. split; [apply NoDup_nil_2|].
    intros t Ht. discriminate.
Defined.

Lemma run_keeps_sources_shaped_witness :
  sources_shaped (config (handle_text (idle_state false true)
                                      (Plain (txt "t.me/news")) true)).
Proof.
  apply (run_keeps_sources_shaped demo_hash demo_repr (idle_state false true)).
  - apply rtc_once, step_text.
  - split; apply Forall_nil_2.
Defined.

Lemma run_grows_ledger_witness :
  sent_hashes (config (demo_state ∅))
  ⊆ sent_hashes (config (fst (channel_item demo_hash demo_repr (demo_state ∅)
                                 demo_message Sent Sent))).
Proof.
  apply (run_grows_ledger demo_hash demo_repr).
  apply rtc_once, step_channel.
Defined.

Lemma delivered_item_not_published_again_witness :
  let st := demo_state ∅ in
  calls (snd (site_item demo_hash st (Response 200 (txt "page")) Sent))
  = [send_message (Some (txt "@dst")) (txt "page...")]
  /\ calls (snd (channel_item demo_hash demo_repr st demo_message Sent Sent))
     = [send_message (Some (txt "@dst")) (txt "hello")]
  /\ calls (snd (channel_item demo_hash demo_repr
                   (fst (channel_item demo_hash demo_repr st demo_message Sent Sent))
                   demo_message Sent Sent)) = [].
Proof.
  intros st.
  destruct (delivered_item_not_published_again demo_hash demo_repr st 200
              (txt "page") demo_message Sent Sent Sent Sent)
    as (_ & Hagain & Hsite & Hchan).
  repeat apply conj.
  - apply Hsite;
      [reflexivity | discriminate | apply not_elem_of_empty | reflexivity].
  - apply Hchan;
      [left; reflexivity | reflexivity | apply not_elem_of_empty | reflexivity].
  - exact Hagain.
Defined.


Lemma falsy_text_ends_channel_scan_witness :
  let st := demo_state ∅ in
  let env := fun _ : text =>
    ([(demo_photo, Sent, Sent); (demo_message, Sent, Sent)], EndOfFeed) in
  channel_body demo_hash demo_repr st demo_photo Sent Sent
  = (st, [], Raised AttributeError)
  /\ parse_channels demo_hash demo_repr env st = (st, [LogInfo; LogError]).
Proof.
  intros st env.
  destruct (falsy_text_ends_channel_scan demo_hash demo_repr st demo_photo
              Sent Sent [] [(demo_message, Sent, Sent)] 0 0 env (txt "@src")
              EndOfFeed)
    as (Hbody & _ & _ & Hchan);
    [right; discriminate | reflexivity |].
  split; [exact Hbody|].
  apply Hchan; reflexivity.
Defined.

Lemma stopped_channel_pass_does_nothing_witness :
  let st := mkState (mkConfig [txt "@src"] [] [] (Some (txt "@dst")) ∅)
                    NoFile false (Some TaskCancelled) false false in
  calls (snd (parse_channels demo_hash demo_repr
                (fun _ => ([(demo_message, Sent, Sent)], EndOfFeed)) st)) = [].
Proof.
  intros st.
  destruct (stopped_channel_pass_does_nothing demo_hash demo_repr
              (fun _ => ([(demo_message, Sent, Sent)], EndOfFeed)) st eq_refl)
    as [_ H].
  exact H.
Defined.

Lemma remove_hyperlinks_no_url_witness :
  remove_hyperlinks (txt "see http:// now") = txt "see http:// now"
  /\ isspace " " = true.
Proof.
  split; [reflexivity|].
  apply (remove_hyperlinks_no_url (txt "see http:// now") (txt "see ")
           (txt "now") " ").
  left. reflexivity.
Defined.

Lemma clean_text_no_mention_witness :
  clean_text (Some (txt "mail @ noon @bob")) [] None = txt "mail @ noon"
  /\ isword " " = false.
Proof.
  split; [reflexivity|].
  apply (clean_text_no_mention (Some (txt "mail @ noon @bob")) None
           (txt "mail ") (txt "noon") " " eq_refl).
  reflexivity.
Defined.

Lemma remove_hyperlinks_plain_text_witness :
  remove_hyperlinks (txt "  plain text ") = txt "plain text".
Proof.
  rewrite (remove_hyperlinks_plain_text (txt "  plain text "));
    reflexivity.
Defined.

Lemma clean_text_whitespace_witness :
  clean_text (Some (txt "  a   b ")) [] None = txt "a b"
  /\ isspace "a" = false.
Proof.
  split; [reflexivity|].
  destruct (clean_text_whitespace (Some (txt "  a   b ")) [] None eq_refl)
    as (H & _).
  apply (H "a"%char (txt " b")). reflexivity.
Defined.

Lemma dash_message_changes_nothing_witness :
  handle_text (idle_state false false) (Plain (txt " - ")) true
  = idle_state false false.
Proof.
  apply dash_message_changes_nothing; reflexivity.
Defined.

Lemma keywords_message_sets_clean_keywords_witness :
  keywords (config (handle_text (idle_state false false)
                                (Plain (txt "Keywords: a, ,b")) true)) <> [].
Proof.
  destruct (keywords_message_sets_clean_keywords (idle_state false false)
              (txt "Keywords: a, ,b") true eq_refl eq_refl eq_refl) as (H & _).
  exact H.
Defined.

Lemma stop_then_start_witness :
  snd (start_parsing_handler (fst (stop_parsing_handler (demo_state ∅))))
  = AnswerStarted.
Proof.
  destruct (stop_then_start (demo_state ∅)) as (_ & _ & _ & _ & _ & H).
  apply H. reflexivity.
Defined.

Lemma remove_hyperlinks_markdown_link_witness :
  remove_hyperlinks (txt "[read more](http://a.b/c)") = txt "read more".
Proof.
  change (remove_hyperlinks
            (txt "[" ++ txt "read more" ++ txt "](" ++ txt "http://a.b/c" ++ txt ")")
          = strip (txt "read more")).
  apply remove_hyperlinks_markdown_link;
    try reflexivity; try discriminate;
    match goal with |- ?P => apply (bool_decide_eq_true_1 P) end; reflexivity.
Defined.

Lemma confirm_remove_removes_the_source_witness :
  let st := mkState (mkConfig [txt "@a"; txt "@b"] [] [] None ∅)
                    NoFile false None false false in
  channels (config (confirm_remove_handler demo_hash st (txt "@b"))) = [txt "@a"].
Proof.
  intros st.
  destruct (confirm_remove_removes_the_source demo_hash st (txt "@b"))
    as (H & _).
  - split; [|split; [apply NoDup_nil_2 | intros t Ht; discriminate]].
    apply NoDup_cons. split; [|apply NoDup_singleton].
    intros Hin. apply list_elem_of_singleton in Hin. discriminate.
  - destruct (H (txt "@b") eq_refl) as (Hch & _). exact Hch.
Defined.

Lemma handle_text_sets_destination_witness :
  target_channel (config (handle_text (idle_state true false)
                                      (Plain (txt " @dst ")) true))
  = Some (txt "@dst").
Proof.
  destruct (handle_text_sets_destination (idle_state true false) (txt " @dst ")
              true eq_refl) as (H & _).
  destruct (H eq_refl eq_refl) as (Htgt & _). exact Htgt.
Defined.
